(** * Credit-risk analytics engine

    A shallow embedding of the class [CreditAnalyticsEngine]
    (utils/analyticsEngine.ts) together with the record types of
    types/analytics.ts, and the properties of the engine stated in the
    specification.

    Conventions of the embedding.

    - A JavaScript [number] is a value of [num]: an exact rational, one of
      the two infinities, or NaN.  Arithmetic on finite values is exact: the
      rounding and the overflow of binary64 are not modelled, and the two
      zeros are not distinguished (a division of a non-zero value by zero
      takes the sign of the dividend).  The special values follow IEEE 754 as
      JavaScript does: [x / 0] is an infinity or NaN, NaN propagates through
      arithmetic and makes every comparison false.
    - A [Customer] object lives in a store ([gmap loc Customer]); an array of
      customers is a list of locations.  Functions that only read their
      customers take the list of records read through the store.
    - The aggregate functions run in a small monad [M] that records every
      division they evaluate (dividend and divisor) and that can raise the
      [RangeError] of [Date.prototype.toISOString].
    - Built-ins of the JavaScript runtime that are not arithmetic (date
      parsing and formatting, number formatting, [localeCompare]) are
      parameters of the section that uses them. *)

From Stdlib Require Import QArith Qround Lqa Lia ZArith Sorted.
From stdpp Require Import gmap strings list pretty.

Open Scope Q_scope.

(** ** Numbers *)

Inductive num : Type :=
  | Fin (q : Q)
  | PInf
  | NInf
  | NaN.

Declare Scope js_scope.
Delimit Scope js_scope with js.
Bind Scope js_scope with num.

Definition isFinite (a : num) : bool :=
  match a with Fin _ => true | _ => false end.

(** The arithmetic and the comparisons of numbers. *)
Module JS.

(** The infinity of the given sign ([true] is positive). *)
Definition infinity (positive : bool) : num :=
  if positive then PInf else NInf.

Definition neg (a : num) : num :=
  match a with
  | Fin x => Fin (- x)
  | PInf => NInf
  | NInf => PInf
  | NaN => NaN
  end.

Definition add (a b : num) : num :=
  match a, b with
  | NaN, _ | _, NaN => NaN
  | Fin x, Fin y => Fin (x + y)
  | PInf, NInf | NInf, PInf => NaN
  | PInf, _ | _, PInf => PInf
  | NInf, _ | _, NInf => NInf
  end.

Definition sub (a b : num) : num := add a (neg b).

Definition mul (a b : num) : num :=
  match a, b with
  | NaN, _ | _, NaN => NaN
  | Fin x, Fin y => Fin (x * y)
  | Fin x, PInf | PInf, Fin x =>
      if Qeq_bool x 0 then NaN else infinity (Qle_bool 0 x)
  | Fin x, NInf | NInf, Fin x =>
      if Qeq_bool x 0 then NaN else infinity (negb (Qle_bool 0 x))
  | PInf, PInf | NInf, NInf => PInf
  | PInf, NInf | NInf, PInf => NInf
  end.

Definition div (a b : num) : num :=
  match a, b with
  | NaN, _ | _, NaN => NaN
  | Fin x, Fin y =>
      if Qeq_bool y 0
      then (if Qeq_bool x 0 then NaN else infinity (Qle_bool 0 x))
      else Fin (x / y)
  | Fin _, PInf | Fin _, NInf => Fin 0
  | PInf, Fin y => infinity (Qle_bool 0 y)
  | NInf, Fin y => infinity (negb (Qle_bool 0 y))
  | _, _ => NaN
  end.

(** [a < b]; false as soon as one side is NaN. *)
Definition lt (a b : num) : bool :=
  match a, b with
  | NaN, _ | _, NaN => false
  | Fin x, Fin y => negb (Qle_bool y x)
  | _, NInf => false
  | NInf, _ => true
  | PInf, _ => false
  | Fin _, PInf => true
  end.

Definition gt (a b : num) : bool := lt b a.

(** [a <= b] and [a >= b] of JavaScript: not the negations of [>] and [<],
    which differ on NaN. *)
Definition le (a b : num) : bool :=
  match a, b with
  | NaN, _ | _, NaN => false
  | _, _ => negb (lt b a)
  end.

Definition ge (a b : num) : bool := le b a.

(** [a === b] on numbers. *)
Definition strictEq (a b : num) : bool :=
  match a, b with
  | Fin x, Fin y => Qeq_bool x y
  | PInf, PInf | NInf, NInf => true
  | _, _ => false
  end.

(** The number of a natural, as [array.length] gives it. *)
Definition of_nat (n : nat) : num := Fin (inject_Z (Z.of_nat n)).

End JS.

Infix "+" := JS.add : js_scope.
Infix "-" := JS.sub : js_scope.
Infix "*" := JS.mul : js_scope.
Infix "/" := JS.div : js_scope.
Infix "<?" := JS.lt : js_scope.
Infix ">?" := JS.gt : js_scope.
Infix "<=?" := JS.le : js_scope.
Infix ">=?" := JS.ge : js_scope.
Infix "===" := JS.strictEq (at level 70, no associativity) : js_scope.

(** [Math.max], [Math.min], [Math.abs], [Math.round]. *)
Definition Math_max (a b : num) : num :=
  match a, b with
  | NaN, _ | _, NaN => NaN
  | _, _ => if JS.lt a b then b else a
  end.

Definition Math_min (a b : num) : num :=
  match a, b with
  | NaN, _ | _, NaN => NaN
  | _, _ => if JS.lt b a then b else a
  end.

Definition Math_abs (a : num) : num :=
  match a with
  | Fin x => if Qle_bool 0 x then Fin x else Fin (- x)
  | PInf | NInf => PInf
  | NaN => NaN
  end.

(** The nearest integer, a tie going towards positive infinity. *)
Definition Math_round (a : num) : num :=
  match a with
  | Fin x => Fin (inject_Z (Qfloor (x + (1 # 2))))
  | _ => a
  end.

(** ** The records of types/analytics.ts *)

Inductive RiskCategory : Type := Low | Medium | High.

#[global] Instance RiskCategory_eq_dec : EqDecision RiskCategory.
Proof. solve_decision. Defined.

Record Customer : Type := mkCustomer {
  id : string;
  name : string;
  age : num;
  income : num;
  creditScore : num;
  accountBalance : num;
  transactionCount : num;
  avgTransactionAmount : num;
  riskScore : num;
  riskCategory : RiskCategory;
  segment : string;
  city : string;
  state : string;
  joinDate : string;
  lastTransactionDate : string;
  fraudAlerts : num;
  paymentHistory : num;
  utilizationRate : num;
  accountAge : num
}.

Module RiskFactors.
Record t : Type := mk {
  creditScore : num;
  income : num;
  paymentHistory : num;
  utilizationRate : num;
  accountAge : num;
  fraudAlerts : num;
  transactionPattern : num;
  avgTransactionAmount : num
}.
End RiskFactors.

(** ** Risk scoring *)

Open Scope js_scope.

(** The object literal built by [calculateRiskScore]. *)
Definition riskFactors (customer : Customer) : RiskFactors.t :=
  {| RiskFactors.creditScore := creditScore customer;
     RiskFactors.income := income customer;
     RiskFactors.paymentHistory := paymentHistory customer;
     RiskFactors.utilizationRate := utilizationRate customer;
     RiskFactors.accountAge := accountAge customer;
     RiskFactors.fraudAlerts := fraudAlerts customer;
     RiskFactors.transactionPattern :=
       transactionCount customer / accountAge customer;
     RiskFactors.avgTransactionAmount := avgTransactionAmount customer |}.

Definition computeWeightedRiskScore (factors : RiskFactors.t) : num :=
  let score := Fin 0 in
  let creditScoreNormalized :=
    Math_max (Fin 0) ((Fin 850 - RiskFactors.creditScore factors) / Fin 450) in
  let score := score + creditScoreNormalized * Fin 35 in
  let paymentHistoryRisk :=
    Math_max (Fin 0) ((Fin 100 - RiskFactors.paymentHistory factors) / Fin 100) in
  let score := score + paymentHistoryRisk * Fin 35 in
  let utilizationRisk :=
    if RiskFactors.utilizationRate factors >? Fin 30
    then (RiskFactors.utilizationRate factors - Fin 30) / Fin 70
    else Fin 0 in
  let score := score + utilizationRisk * Fin 15 in
  let incomeRisk :=
    Math_max (Fin 0) ((Fin 500000 - RiskFactors.income factors) / Fin 500000) in
  let score := score + incomeRisk * Fin 10 in
  let accountAgeRisk :=
    Math_max (Fin 0) ((Fin 60 - RiskFactors.accountAge factors) / Fin 60) in
  let score := score + accountAgeRisk * Fin 3 in
  let fraudRisk := Math_min (Fin 1) (RiskFactors.fraudAlerts factors / Fin 5) in
  let score := score + fraudRisk * Fin 2 in
  Math_min (Fin 100) (Math_round score).

Definition calculateRiskScore (customer : Customer) : num :=
  let factors := riskFactors customer in
  computeWeightedRiskScore factors.

(** The conditional of [processNewCustomerData] that derives the category. *)
Definition riskCategoryOf (riskScore : num) : RiskCategory :=
  if riskScore <? Fin 30 then Low
  else if riskScore <? Fin 70 then Medium
  else High.

Definition assignCustomerSegment (customer : Customer) : string :=
  if (income customer >? Fin 600000) && (riskScore customer <? Fin 40) then "Premium"
  else if (income customer >? Fin 400000) && (riskScore customer <? Fin 60) then "Gold"
  else if (income customer >? Fin 250000) && (riskScore customer <? Fin 80) then "Silver"
  else "Basic".

(** ** The batch pipeline *)

(** Objects are named by locations; a store maps the live locations to the
    records they hold. *)
Abbreviation loc := positive (only parsing).
Abbreviation store := (gmap positive Customer) (only parsing).

(** The three assignments [customer.riskScore = v], [customer.riskCategory = v]
    and [customer.segment = v], on the record the object holds. *)
Definition set_riskScore (v : num) (c : Customer) : Customer :=
  {| id := id c; name := name c; age := age c; income := income c;
     creditScore := creditScore c; accountBalance := accountBalance c;
     transactionCount := transactionCount c;
     avgTransactionAmount := avgTransactionAmount c;
     riskScore := v;
     riskCategory := riskCategory c; segment := segment c;
     city := city c; state := state c; joinDate := joinDate c;
     lastTransactionDate := lastTransactionDate c;
     fraudAlerts := fraudAlerts c; paymentHistory := paymentHistory c;
     utilizationRate := utilizationRate c; accountAge := accountAge c |}.

Definition set_riskCategory (v : RiskCategory) (c : Customer) : Customer :=
  {| id := id c; name := name c; age := age c; income := income c;
     creditScore := creditScore c; accountBalance := accountBalance c;
     transactionCount := transactionCount c;
     avgTransactionAmount := avgTransactionAmount c;
     riskScore := riskScore c;
     riskCategory := v; segment := segment c;
     city := city c; state := state c; joinDate := joinDate c;
     lastTransactionDate := lastTransactionDate c;
     fraudAlerts := fraudAlerts c; paymentHistory := paymentHistory c;
     utilizationRate := utilizationRate c; accountAge := accountAge c |}.

Definition set_segment (v : string) (c : Customer) : Customer :=
  {| id := id c; name := name c; age := age c; income := income c;
     creditScore := creditScore c; accountBalance := accountBalance c;
     transactionCount := transactionCount c;
     avgTransactionAmount := avgTransactionAmount c;
     riskScore := riskScore c;
     riskCategory := riskCategory c; segment := v;
     city := city c; state := state c; joinDate := joinDate c;
     lastTransactionDate := lastTransactionDate c;
     fraudAlerts := fraudAlerts c; paymentHistory := paymentHistory c;
     utilizationRate := utilizationRate c; accountAge := accountAge c |}.

(** The callback of [rawCustomers.map]: it reads the object at [customer],
    assigns its three derived fields in turn, each assignment reading the
    object as the previous one left it, and returns the same object.  [None]
    stands for a location that holds no object, which an array of customers
    never contains. *)
Definition processCustomer (customer : loc) (heap : store)
    : option (loc * store) :=
  c ← heap !! customer;
  let heap := <[customer := set_riskScore (calculateRiskScore c) c]> heap in
  c ← heap !! customer;
  let heap := <[customer := set_riskCategory (riskCategoryOf (riskScore c)) c]> heap in
  c ← heap !! customer;
  let heap := <[customer := set_segment (assignCustomerSegment c) c]> heap in
  Some (customer, heap).

(** [processNewCustomerData]: the callback runs on the elements from left to
    right; the result is a new array of what the callback returned, and the
    store as the callbacks left it. *)
Fixpoint processNewCustomerData (rawCustomers : list loc) (heap : store)
    : option (list loc * store) :=
  match rawCustomers with
  | [] => Some ([], heap)
  | customer :: rest =>
      '(r, heap) ← processCustomer customer heap;
      '(rs, heap) ← processNewCustomerData rest heap;
      Some (r :: rs, heap)
  end.

(** ** The monad of the aggregate functions *)

(** One evaluated division. *)
Record division : Type := Division { dividend : num; divisor : num }.

(** A computation yields a result, or [None] when it raised an exception,
    and the divisions it evaluated, in order. *)
Record M (A : Type) : Type := Run { result : option A; divisions : list division }.
Arguments Run {A} _ _.
Arguments result {A} _.
Arguments divisions {A} _.

#[global] Instance M_ret : MRet M := λ A a, Run (Some a) [].

#[global] Instance M_bind : MBind M := λ A B f m,
  match result m with
  | Some a => Run (result (f a)) (divisions m ++ divisions (f a))
  | None => Run None (divisions m)
  end.

Definition throw {A : Type} : M A := Run None [].

(** [a / b], recorded. *)
Definition divide (a b : num) : M num := Run (Some (a / b)) [Division a b].

(** [array.filter] with a callback that runs in [M]. *)
Fixpoint filterM {A : Type} (f : A → M bool) (l : list A) : M (list A) :=
  match l with
  | [] => mret []
  | x :: l =>
      keep ← f x;
      rest ← filterM f l;
      mret (if keep : bool then x :: rest else rest)
  end.

(** A division by zero is a recorded division whose divisor is zero. *)
Definition byZero (d : division) : bool := divisor d === Fin 0.

(** ** Values and keys of a customer object *)

Inductive value : Type :=
  | VNum (n : num)
  | VStr (s : string).

Definition RiskCategory_string (r : RiskCategory) : string :=
  match r with Low => "Low" | Medium => "Medium" | High => "High" end.

(** [keyof Customer]. *)
Inductive CustomerKey : Type :=
  | K_id | K_name | K_age | K_income | K_creditScore | K_accountBalance
  | K_transactionCount | K_avgTransactionAmount | K_riskScore
  | K_riskCategory | K_segment | K_city | K_state | K_joinDate
  | K_lastTransactionDate | K_fraudAlerts | K_paymentHistory
  | K_utilizationRate | K_accountAge.

(** [customer[field]]. *)
Definition get (customer : Customer) (field : CustomerKey) : value :=
  match field with
  | K_id => VStr (id customer)
  | K_name => VStr (name customer)
  | K_age => VNum (age customer)
  | K_income => VNum (income customer)
  | K_creditScore => VNum (creditScore customer)
  | K_accountBalance => VNum (accountBalance customer)
  | K_transactionCount => VNum (transactionCount customer)
  | K_avgTransactionAmount => VNum (avgTransactionAmount customer)
  | K_riskScore => VNum (riskScore customer)
  | K_riskCategory => VStr (RiskCategory_string (riskCategory customer))
  | K_segment => VStr (segment customer)
  | K_city => VStr (city customer)
  | K_state => VStr (state customer)
  | K_joinDate => VStr (joinDate customer)
  | K_lastTransactionDate => VStr (lastTransactionDate customer)
  | K_fraudAlerts => VNum (fraudAlerts customer)
  | K_paymentHistory => VNum (paymentHistory customer)
  | K_utilizationRate => VNum (utilizationRate customer)
  | K_accountAge => VNum (accountAge customer)
  end.

Module SegmentAnalysis.
Record t : Type := mk {
  segment : string;
  customers : num;
  avgIncome : num;
  avgRiskScore : num;
  revenue : num;
  growthRate : num;
  percentage : option num
}.
End SegmentAnalysis.

Inductive Priority : Type := low | medium | high | critical.

Module Recommendation.
Record t : Type := mk {
  type : string;
  priority : Priority;
  message : string
}.
End Recommendation.

Module MonthlyTrend.
Record t : Type := mk {
  month : string;
  newCustomers : num;
  totalRevenue : num;
  avgRiskScore : num
}.
End MonthlyTrend.

(** The objects of the local array [segments] of [clusterCustomers]. *)
Module Bucket.
Record t : Type := mk {
  name : string;
  customers : list Customer;
  criteria : Customer → bool
}.
End Bucket.

(** The objects held by the local map [monthlyData] of
    [calculateMonthlyTrends]. *)
Module MonthData.
Record t : Type := mk {
  newCustomers : num;
  totalRevenue : num;
  avgRiskScore : num
}.
End MonthData.

(** [array.forEach] with a callback in [M] that updates a local variable. *)
Fixpoint forEachM {A S : Type} (f : S → A → M S) (s : S) (l : list A) : M S :=
  match l with
  | [] => mret s
  | x :: l => s ← f s x; forEachM f s l
  end.

(** [array.sort(compare)]: the stable sort, for a comparison whose sign says
    whether its first argument goes before the second. *)
Fixpoint sort_insert {A : Type} (compare : A → A → num) (x : A) (l : list A) : list A :=
  match l with
  | [] => [x]
  | y :: l' =>
      if compare x y <? Fin 0 then x :: y :: l' else y :: sort_insert compare x l'
  end.

Definition sort {A : Type} (compare : A → A → num) (l : list A) : list A :=
  fold_left (λ sorted x, sort_insert compare x sorted) l [].

(** A JavaScript [Map] with string keys: the entries in insertion order. *)
Definition Map_has {V : Type} (m : list (string * V)) (k : string) : bool :=
  existsb (λ e, String.eqb (fst e) k) m.

Definition Map_get {V : Type} (m : list (string * V)) (k : string) : option V :=
  snd <$> List.find (λ e, String.eqb (fst e) k) m.

Fixpoint Map_set {V : Type} (m : list (string * V)) (k : string) (v : V)
    : list (string * V) :=
  match m with
  | [] => [(k, v)]
  | e :: m' => if String.eqb (fst e) k then (k, v) :: m' else e :: Map_set m' k v
  end.

(** ** The aggregate functions *)

Section Engine.

(** The runtime: the time value of [new Date()], taken to stand still during
    one call; the time value of [new Date(s)], [None] for an invalid date;
    [toISOString] of a valid date; [String(x)] and [x.toFixed(d)] of a
    number; [a.localeCompare(b)]. *)
Variable Date_now : Z.
Variable Date_parse : string → option Z.
Variable Date_toISOString : Z → string.
Variable Number_toString : num → string.
Variable Number_toFixed : num → nat → string.
Variable String_localeCompare : string → string → num.

Definition calculateAverage (customers : list Customer) (field : CustomerKey) : M num :=
  let sum :=
    fold_left (λ acc customer,
      let value := get customer field in
      acc + match value with VNum v => v | VStr _ => Fin 0 end)
      customers (Fin 0) in
  q ← divide sum (JS.of_nat (length customers));
  mret (Math_round q).

Definition calculateGrowthRate (customers : list Customer) : M num :=
  let now := Date_now in
  let sixMonthsAgo := (now - 6 * 30 * 24 * 60 * 60 * 1000)%Z in
  let recentCustomers :=
    JS.of_nat (length (List.filter (λ c,
      match Date_parse (joinDate c) with
      | Some t => (sixMonthsAgo <? t)%Z
      | None => false
      end) customers)) in
  let totalCustomers := JS.of_nat (length customers) in
  let oldCustomers := totalCustomers - recentCustomers in
  if oldCustomers === Fin 0 then mret (Fin 100)
  else
    q ← divide recentCustomers oldCustomers;
    mret (Math_round (q * Fin 100)).

(** The inner loop of [clusterCustomers]: the customer is pushed on the first
    segment whose criteria it meets. *)
Fixpoint place (customer : Customer) (segments : list Bucket.t) : list Bucket.t :=
  match segments with
  | [] => []
  | segment :: rest =>
      if Bucket.criteria segment customer
      then {| Bucket.name := Bucket.name segment;
              Bucket.customers := Bucket.customers segment ++ [customer];
              Bucket.criteria := Bucket.criteria segment |} :: rest
      else segment :: place customer rest
  end.

Definition clusterCustomers (customers : list Customer) : list Bucket.t :=
  let segments :=
    [ Bucket.mk "Premium" []
        (λ c, (income c >? Fin 600000) && (riskScore c <? Fin 40));
      Bucket.mk "Gold" []
        (λ c, (income c >? Fin 400000) && (riskScore c <? Fin 60));
      Bucket.mk "Silver" []
        (λ c, (income c >? Fin 250000) && (riskScore c <? Fin 80));
      Bucket.mk "Basic" [] (λ c, true) ] in
  let segments :=
    fold_left (λ segments customer, place customer segments) customers segments in
  List.filter (λ s, JS.of_nat (length (Bucket.customers s)) >? Fin 0) segments.

Definition performSegmentAnalysis (customers : list Customer) : M (list SegmentAnalysis.t) :=
  let segments := clusterCustomers customers in
  mapM (λ segment,
    avgIncome ← calculateAverage (Bucket.customers segment) K_income;
    avgRiskScore ← calculateAverage (Bucket.customers segment) K_riskScore;
    let revenue :=
      fold_left (λ sum c, sum + income c * Fin 0.15) (Bucket.customers segment) (Fin 0) in
    growthRate ← calculateGrowthRate (Bucket.customers segment);
    percentage ←
      divide (JS.of_nat (length (Bucket.customers segment)))
             (JS.of_nat (length customers));
    mret {| SegmentAnalysis.segment := Bucket.name segment;
            SegmentAnalysis.customers := JS.of_nat (length (Bucket.customers segment));
            SegmentAnalysis.avgIncome := avgIncome;
            SegmentAnalysis.avgRiskScore := avgRiskScore;
            SegmentAnalysis.revenue := revenue;
            SegmentAnalysis.growthRate := growthRate;
            SegmentAnalysis.percentage := Some percentage |}) segments.

Definition calculateAnomalyScore (customer : Customer) (allCustomers : list Customer) : M num :=
  avgIncome ← calculateAverage allCustomers K_income;
  avgTransactionAmount' ← calculateAverage allCustomers K_avgTransactionAmount;
  avgTransactionCount ← calculateAverage allCustomers K_transactionCount;
  incomeRatio ← divide (income customer - avgIncome) (avgIncome * Fin 0.5);
  let incomeZScore := Math_abs incomeRatio in
  transactionAmountRatio ←
    divide (avgTransactionAmount customer - avgTransactionAmount')
           (avgTransactionAmount' * Fin 0.5);
  let transactionAmountZScore := Math_abs transactionAmountRatio in
  transactionCountRatio ←
    divide (transactionCount customer - avgTransactionCount)
           (avgTransactionCount * Fin 0.5);
  let transactionCountZScore := Math_abs transactionCountRatio in
  anomalyScore ←
    divide (incomeZScore * Fin 0.3 + transactionAmountZScore * Fin 0.4
            + transactionCountZScore * Fin 0.3) (Fin 3);
  mret (Math_min (Fin 1) anomalyScore).

Definition detectFraudPatterns (customers : list Customer) : M (list Customer) :=
  filterM (λ customer,
    anomalyScore ← calculateAnomalyScore customer customers;
    mret (anomalyScore >? Fin 0.7)) customers.

Definition generateRecommendations (customers : list Customer)
    (segments : list SegmentAnalysis.t) : M (list Recommendation.t) :=
  let recommendations := [] in
  let highRiskCount :=
    JS.of_nat (length (List.filter (λ c, bool_decide (riskCategory c = High)) customers)) in
  let premiumSegment :=
    List.find (λ s, String.eqb (SegmentAnalysis.segment s) "Premium") segments in
  let lowUtilizationCustomers :=
    JS.of_nat (length (List.filter (λ c, utilizationRate c <? Fin 20) customers)) in
  recommendations ←
    (if highRiskCount >? JS.of_nat (length customers) * Fin 0.15
     then
       ratio ← divide highRiskCount (JS.of_nat (length customers));
       mret (recommendations ++
         [ {| Recommendation.type := "risk_management";
              Recommendation.priority := critical;
              Recommendation.message :=
                Number_toString highRiskCount +:+ " customers (" +:+
                Number_toFixed (ratio * Fin 100) 1 +:+
                "%) are high-risk. Implement stricter monitoring." |} ])
     else mret recommendations);
  let recommendations :=
    match premiumSegment with
    | Some premiumSegment =>
        if SegmentAnalysis.growthRate premiumSegment >? Fin 15
        then recommendations ++
          [ {| Recommendation.type := "growth_opportunity";
               Recommendation.priority := high;
               Recommendation.message :=
                 "Premium segment shows " +:+
                 Number_toString (SegmentAnalysis.growthRate premiumSegment) +:+
                 "% growth. Increase acquisition budget by 25%." |} ]
        else recommendations
    | None => recommendations
    end in
  let recommendations :=
    if lowUtilizationCustomers >? JS.of_nat (length customers) * Fin 0.3
    then recommendations ++
      [ {| Recommendation.type := "engagement";
           Recommendation.priority := medium;
           Recommendation.message :=
             Number_toString lowUtilizationCustomers +:+
             " customers have low utilization. Launch engagement campaigns." |} ]
    else recommendations in
  mret recommendations.

(** The callback of the [forEach] of [calculateMonthlyTrends].  The object
    [data] is the one the map holds, so that its three updates are updates of
    the entry. *)
Definition recordCustomer (monthlyData : list (string * MonthData.t))
    (customer : Customer) : M (list (string * MonthData.t)) :=
  month ←
    match Date_parse (joinDate customer) with
    | Some t => mret (String.substring 0 7 (Date_toISOString t))
    | None => throw
    end;
  let monthlyData :=
    if negb (Map_has monthlyData month)
    then Map_set monthlyData month (MonthData.mk (Fin 0) (Fin 0) (Fin 0))
    else monthlyData in
  match Map_get monthlyData month with
  | Some data =>
      mret (Map_set monthlyData month
        {| MonthData.newCustomers := MonthData.newCustomers data + Fin 1;
           MonthData.totalRevenue :=
             MonthData.totalRevenue data + income customer * Fin 0.15;
           MonthData.avgRiskScore :=
             MonthData.avgRiskScore data + riskScore customer |})
  | None => throw
  end.

Definition calculateMonthlyTrends (customers : list Customer) : M (list MonthlyTrend.t) :=
  let monthlyData := [] in
  monthlyData ← forEachM recordCustomer monthlyData customers;
  trends ← mapM (λ entry,
    let month := fst entry in
    let data := snd entry in
    q ← divide (MonthData.avgRiskScore data) (MonthData.newCustomers data);
    mret {| MonthlyTrend.month := month;
            MonthlyTrend.newCustomers := MonthData.newCustomers data;
            MonthlyTrend.totalRevenue := MonthData.totalRevenue data;
            MonthlyTrend.avgRiskScore := Math_round q |}) monthlyData;
  mret (sort (λ a b, String_localeCompare (MonthlyTrend.month a) (MonthlyTrend.month b)) trends).

End Engine.

(** ** Business insights *)

Module RiskDistribution.
Record t : Type := mk {
  category : string;
  count : num;
  percentage : num;
  revenue : option num
}.
End RiskDistribution.

Module AnalyticsResult.
Record t : Type := mk {
  totalCustomers : num;
  highRiskCount : num;
  fraudSuspects : num;
  premiumOpportunities : num;
  averageRiskScore : num;
  portfolioValue : num;
  recommendations : list Recommendation.t;
  riskDistribution : list RiskDistribution.t;
  monthlyTrends : list MonthlyTrend.t
}.
End AnalyticsResult.

(** [calculateRiskDistribution]; the objects it builds have no [revenue]. *)
Definition calculateRiskDistribution (customers : list Customer)
    : M (list RiskDistribution.t) :=
  let distribution_low :=
    JS.of_nat (length (List.filter (λ c, bool_decide (riskCategory c = Low)) customers)) in
  let distribution_medium :=
    JS.of_nat (length (List.filter (λ c, bool_decide (riskCategory c = Medium)) customers)) in
  let distribution_high :=
    JS.of_nat (length (List.filter (λ c, bool_decide (riskCategory c = High)) customers)) in
  lowShare ← divide distribution_low (JS.of_nat (length customers));
  mediumShare ← divide distribution_medium (JS.of_nat (length customers));
  highShare ← divide distribution_high (JS.of_nat (length customers));
  mret [ RiskDistribution.mk "Low Risk" distribution_low lowShare None;
         RiskDistribution.mk "Medium Risk" distribution_medium mediumShare None;
         RiskDistribution.mk "High Risk" distribution_high highShare None ].

Section Insights.

Variable Date_parse : string → option Z.
Variable Date_toISOString : Z → string.
Variable Number_toString : num → string.
Variable Number_toFixed : num → nat → string.
Variable String_localeCompare : string → string → num.

Definition generateBusinessInsights (customers : list Customer)
    (segments : list SegmentAnalysis.t) : M AnalyticsResult.t :=
  let highRiskCustomers :=
    List.filter (λ c, bool_decide (riskCategory c = High)) customers in
  fraudSuspects ← detectFraudPatterns customers;
  let premiumOpportunities :=
    List.filter (λ c,
      (income c >? Fin 500000) && (riskScore c <? Fin 50)
      && negb (String.eqb (segment c) "Premium")) customers in
  averageRiskScore ← calculateAverage customers K_riskScore;
  let portfolioValue :=
    fold_left (λ sum s, sum + SegmentAnalysis.revenue s) segments (Fin 0) in
  recommendations ←
    generateRecommendations Number_toString Number_toFixed customers segments;
  riskDistribution ← calculateRiskDistribution customers;
  monthlyTrends ←
    calculateMonthlyTrends Date_parse Date_toISOString String_localeCompare customers;
  mret {| AnalyticsResult.totalCustomers := JS.of_nat (length customers);
          AnalyticsResult.highRiskCount := JS.of_nat (length highRiskCustomers);
          AnalyticsResult.fraudSuspects := JS.of_nat (length fraudSuspects);
          AnalyticsResult.premiumOpportunities :=
            JS.of_nat (length premiumOpportunities);
          AnalyticsResult.averageRiskScore := averageRiskScore;
          AnalyticsResult.portfolioValue := portfolioValue;
          AnalyticsResult.recommendations := recommendations;
          AnalyticsResult.riskDistribution := riskDistribution;
          AnalyticsResult.monthlyTrends := monthlyTrends |}.

End Insights.

(** ** The callers of the engine *)

(** data/mockData.ts: the value that the callback of [customers.forEach]
    assigns to [customer.segment], from the segment analysis of the
    portfolio.  An empty name is falsy and gives Basic. *)
Definition segmentFromAnalysis (segmentAnalysis : list SegmentAnalysis.t)
    (customer : Customer) : string :=
  let segment :=
    List.find (λ s,
      if String.eqb (SegmentAnalysis.segment s) "Premium"
      then (income customer >? Fin 600000) && (riskScore customer <? Fin 40)
      else if String.eqb (SegmentAnalysis.segment s) "Gold"
      then (income customer >? Fin 400000) && (riskScore customer <? Fin 60)
      else if String.eqb (SegmentAnalysis.segment s) "Silver"
      then (income customer >? Fin 250000) && (riskScore customer <? Fin 80)
      else true) segmentAnalysis in
  match segment with
  | Some s =>
      if String.eqb (SegmentAnalysis.segment s) "" then "Basic"
      else SegmentAnalysis.segment s
  | None => "Basic"
  end.

(** [a || b] on strings that may be undefined, and on numbers: the empty
    string, undefined, 0 and NaN are falsy. *)
Definition orString (a : option string) (b : string) : string :=
  match a with
  | Some s => if String.eqb s "" then b else s
  | None => b
  end.

Definition orNumber (a b : num) : num :=
  match a with
  | NaN => b
  | Fin q => if Qeq_bool q 0 then b else a
  | _ => a
  end.

(** [array.findIndex]. *)
Fixpoint findIndex {A : Type} (f : A → bool) (l : list A) : option nat :=
  match l with
  | [] => None
  | x :: l => if f x then Some 0%nat else S <$> findIndex f l
  end.

(** [s.padStart(n, "0")], for a string of one-byte characters. *)
Definition padStart_zero (n : nat) (s : string) : string :=
  String.concat "" (repeat "0" (n - String.length s)) +:+ s.

Section Ingestion.

(** The runtime: [s.toLowerCase()], [a.includes(b)], [parseInt(s)],
    [String(n)] of an array index, and the date part of
    [new Date().toISOString()]. *)
Variable String_toLowerCase : string → string.
Variable String_includes : string → string → bool.
Variable parseInt : string → num.
Variable String_of_index : nat → string.
Variable today : string.

(** components/DataManagement.tsx: [getField] of [parseCustomerFromCSV];
    [None] is undefined, the value of a row shorter than its header. *)
Definition getField (headers values : list string) (fieldName : string)
    : option string :=
  let headerIndex :=
    findIndex (λ h,
      String_includes (String_toLowerCase h) (String_toLowerCase fieldName)) headers in
  match headerIndex with
  | Some headerIndex => values !! headerIndex
  | None => Some ""
  end.

(** [parseInt(x)] of a string that may be undefined; undefined is converted
    to the string "undefined". *)
Definition parseIntOf (x : option string) : num :=
  parseInt (default "undefined" x).

Definition parseCustomerFromCSV (headers values : list string) (index : nat)
    : option Customer :=
  let getField := getField headers values in
  Some
    {| id := orString (getField "id")
               ("CUST-" +:+ padStart_zero 4 (String_of_index index));
       name := orString (getField "name") ("Customer " +:+ String_of_index index);
       age := orNumber (parseIntOf (getField "age")) (Fin 30);
       income := orNumber (parseIntOf (getField "income")) (Fin 300000);
       creditScore := orNumber (parseIntOf (getField "credit")) (Fin 650);
       accountBalance := orNumber (parseIntOf (getField "balance")) (Fin 50000);
       transactionCount := orNumber (parseIntOf (getField "transactions")) (Fin 25);
       avgTransactionAmount :=
         orNumber (parseIntOf (getField "avg_transaction")) (Fin 5000);
       riskScore := Fin 0;
       riskCategory := Medium;
       segment := "";
       city := orString (getField "city") "Mumbai";
       state := orString (getField "state") "Maharashtra";
       joinDate := orString (getField "join_date") today;
       lastTransactionDate := orString (getField "last_transaction") today;
       fraudAlerts := orNumber (parseIntOf (getField "fraud_alerts")) (Fin 0);
       paymentHistory := orNumber (parseIntOf (getField "payment_history")) (Fin 85);
       utilizationRate := orNumber (parseIntOf (getField "utilization")) (Fin 45);
       accountAge := orNumber (parseIntOf (getField "account_age")) (Fin 24) |}.

End Ingestion.

(** ** Vocabulary of the statements *)

(** Every numeric field of the record is a finite number. *)
Definition finiteFields (c : Customer) : bool :=
  forallb isFinite
    [ age c; income c; creditScore c; accountBalance c; transactionCount c;
      avgTransactionAmount c; riskScore c; fraudAlerts c; paymentHistory c;
      utilizationRate c; accountAge c ].

(** Every field of the structure is a finite number. *)
Definition finiteFactors (f : RiskFactors.t) : bool :=
  forallb isFinite
    [ RiskFactors.creditScore f; RiskFactors.income f;
      RiskFactors.paymentHistory f; RiskFactors.utilizationRate f;
      RiskFactors.accountAge f; RiskFactors.fraudAlerts f;
      RiskFactors.transactionPattern f; RiskFactors.avgTransactionAmount f ].

(** An integer between 0 and 100. *)
Definition inScoreRange (a : num) : Prop :=
  ∃ z : Z, a = Fin (inject_Z z) ∧ (0 ≤ z ≤ 100)%Z.

(** A finite number that is not negative. *)
Definition nonneg (a : num) : Prop := ∃ q : Q, a = Fin q ∧ 0 <= q.

(** A number between 0 and 1. *)
Definition inUnitInterval (a : num) : Prop := ∃ q : Q, a = Fin q ∧ 0 <= q <= 1.

(** The ordered predicates of segment assignment, as the specification
    lists them. *)
Definition meetsPremium (c : Customer) : bool :=
  (income c >? Fin 600000) && (riskScore c <? Fin 40).
Definition meetsGold (c : Customer) : bool :=
  (income c >? Fin 400000) && (riskScore c <? Fin 60).
Definition meetsSilver (c : Customer) : bool :=
  (income c >? Fin 250000) && (riskScore c <? Fin 80).

(** A record with the given values in the fields that the scoring and the
    fraud detection read, and fixed values elsewhere. *)
Definition customerOf (income creditScore paymentHistory utilizationRate
    accountAge fraudAlerts transactionCount avgTransactionAmount : Q) : Customer :=
  {| id := "CUST-0001"; name := "Customer 1"; age := Fin 30;
     income := Fin income; creditScore := Fin creditScore;
     accountBalance := Fin 50000;
     transactionCount := Fin transactionCount;
     avgTransactionAmount := Fin avgTransactionAmount;
     riskScore := Fin 0; riskCategory := Medium; segment := "";
     city := "Mumbai"; state := "Maharashtra";
     joinDate := "2024-01-15"; lastTransactionDate := "2024-06-15";
     fraudAlerts := Fin fraudAlerts; paymentHistory := Fin paymentHistory;
     utilizationRate := Fin utilizationRate; accountAge := Fin accountAge |}.

(** The extreme record of the specification: no credit score, no income, a
    full utilization and a thousand fraud alerts. *)
Definition customer_extreme : Customer := customerOf 0 0 85 100 24 1000 25 5000.

(** The default values of the CSV ingestion, with a negative number of fraud
    alerts. *)
Definition customer_negative_alerts : Customer :=
  customerOf 300000 650 85 45 24 (-1000) 25 5000.

(** The default values of the CSV ingestion, with an account opened this
    month. *)
Definition customer_new_account : Customer :=
  customerOf 300000 650 85 45 0 0 25 5000.

(** What one pass of the pipeline makes of a record: the three assignments
    of [processCustomer], on the record alone. *)
Definition derive (c : Customer) : Customer :=
  let c := set_riskScore (calculateRiskScore c) c in
  let c := set_riskCategory (riskCategoryOf (riskScore c)) c in
  set_segment (assignCustomerSegment c) c.

(** The two records agree on every field but the three derived ones. *)
Definition sameInputFields (c c' : Customer) : Prop :=
  id c' = id c ∧ name c' = name c ∧ age c' = age c ∧ income c' = income c ∧
  creditScore c' = creditScore c ∧ accountBalance c' = accountBalance c ∧
  transactionCount c' = transactionCount c ∧
  avgTransactionAmount c' = avgTransactionAmount c ∧
  city c' = city c ∧ state c' = state c ∧ joinDate c' = joinDate c ∧
  lastTransactionDate c' = lastTransactionDate c ∧
  fraudAlerts c' = fraudAlerts c ∧ paymentHistory c' = paymentHistory c ∧
  utilizationRate c' = utilizationRate c ∧ accountAge c' = accountAge c.

(** Every element of the array is an object of the store. *)
Definition allocated (heap : store) (customers : list loc) : Prop :=
  Forall (λ l, is_Some (heap !! l)) customers.

(** The two customers of the end-to-end scenario of the specification, and a
    store that holds them and a third object. *)
Definition customer_premium : Customer := customerOf 650000 800 95 10 48 0 25 5000.
Definition customer_basic : Customer := customerOf 100000 450 60 90 3 3 25 5000.
Definition heap_sample : store :=
  <[1%positive := customer_premium]>
    (<[2%positive := customer_basic]> (<[3%positive := customer_extreme]> ∅)).

(** The sum of a field over the customers, and its rounded mean, as
    [calculateAverage] computes them. *)
Definition fieldSum (customers : list Customer) (field : CustomerKey) : num :=
  fold_left (λ acc customer,
    acc + match get customer field with VNum v => v | VStr _ => Fin 0 end)
    customers (Fin 0).

Definition mean (customers : list Customer) (field : CustomerKey) : num :=
  Math_round (fieldSum customers field / JS.of_nat (length customers)).

(** The anomaly score of the customer exceeds 0.7. *)
Definition exceedsThreshold (customer : Customer) (customers : list Customer) : bool :=
  match result (calculateAnomalyScore customer customers) with
  | Some anomalyScore => anomalyScore >? Fin 0.7
  | None => false
  end.

(** The default values of the CSV ingestion, for a customer who has made no
    transaction. *)
Definition customer_idle : Customer := customerOf 300000 650 85 45 24 0 0 5000.

(** The segments hold a Premium entry, the first of which has a growth rate
    above 15: the condition of the second rule of [generateRecommendations]. *)
Definition premiumGrowth (segments : list SegmentAnalysis.t) : bool :=
  match List.find (λ s, String.eqb (SegmentAnalysis.segment s) "Premium") segments with
  | Some premiumSegment => SegmentAnalysis.growthRate premiumSegment >? Fin 15
  | None => false
  end.

(** The list holds a recommendation of type risk_management. *)
Definition hasRiskManagement (recommendations : list Recommendation.t) : bool :=
  existsb (λ r, String.eqb (Recommendation.type r) "risk_management") recommendations.

(** The number of customers of category High. *)
Definition highRiskCount (customers : list Customer) : nat :=
  length (List.filter (λ c, bool_decide (riskCategory c = High)) customers).

(** A portfolio of [high] customers of category High followed by [others]
    customers of category Low. *)
Definition portfolio (high others : nat) : list Customer :=
  repeat (derive customer_basic) high ++ repeat (derive customer_premium) others.

(** The customers that segment assignment gives the name, in their order. *)
Definition membersOf (segmentName : string) (customers : list Customer) : list Customer :=
  List.filter (λ c, String.eqb (assignCustomerSegment c) segmentName) customers.

(** The local array [segments] of [clusterCustomers], with the given
    members. *)
Definition fourBuckets (premium gold silver basic : list Customer) : list Bucket.t :=
  [ Bucket.mk "Premium" premium
      (λ c, (income c >? Fin 600000) && (riskScore c <? Fin 40));
    Bucket.mk "Gold" gold
      (λ c, (income c >? Fin 400000) && (riskScore c <? Fin 60));
    Bucket.mk "Silver" silver
      (λ c, (income c >? Fin 250000) && (riskScore c <? Fin 80));
    Bucket.mk "Basic" basic (λ c, true) ].

(** The four segments with their members by segment assignment, the empty
    ones dropped. *)
Definition buckets (customers : list Customer) : list Bucket.t :=
  List.filter (λ b, negb (Nat.eqb (length (Bucket.customers b)) 0))
    (fourBuckets (membersOf "Premium" customers) (membersOf "Gold" customers)
                 (membersOf "Silver" customers) (membersOf "Basic" customers)).

(** The sum of the numbers, from 0, as [reduce] adds them. *)
Definition total (l : list num) : num := fold_left JS.add l (Fin 0).

(** The entry of the analysis describes the bucket within a population of
    [population] customers. *)
Definition describes (population : nat) (b : Bucket.t) (s : SegmentAnalysis.t) : Prop :=
  SegmentAnalysis.segment s = Bucket.name b ∧
  SegmentAnalysis.customers s = JS.of_nat (length (Bucket.customers b)) ∧
  SegmentAnalysis.percentage s
  = Some (JS.of_nat (length (Bucket.customers b)) / JS.of_nat population).

(** Both numbers are finite and the first is at most the second. *)
Definition leq (a b : num) : Prop := ∃ p q : Q, a = Fin p ∧ b = Fin q ∧ p <= q.

(** The six factors that the scoring reads are finite. *)
Definition finiteScoring (f : RiskFactors.t) : bool :=
  forallb isFinite
    [ RiskFactors.creditScore f; RiskFactors.paymentHistory f;
      RiskFactors.utilizationRate f; RiskFactors.income f;
      RiskFactors.accountAge f; RiskFactors.fraudAlerts f ].

(** The first profile is at least as good as the second on every factor: a
    credit score, payment history, income and account age that are not
    lower, a utilization and a number of fraud alerts that are not higher. *)
Definition atLeastAsGood (g f : RiskFactors.t) : bool :=
  (RiskFactors.creditScore f <=? RiskFactors.creditScore g)
  && (RiskFactors.paymentHistory f <=? RiskFactors.paymentHistory g)
  && (RiskFactors.utilizationRate g <=? RiskFactors.utilizationRate f)
  && (RiskFactors.income f <=? RiskFactors.income g)
  && (RiskFactors.accountAge f <=? RiskFactors.accountAge g)
  && (RiskFactors.fraudAlerts g <=? RiskFactors.fraudAlerts f).

(** The profile is at or beyond every threshold of the scoring, and has
    exactly 0 fraud alerts. *)
Definition beyondThresholds (f : RiskFactors.t) : bool :=
  (Fin 850 <=? RiskFactors.creditScore f)
  && (Fin 100 <=? RiskFactors.paymentHistory f)
  && (RiskFactors.utilizationRate f <=? Fin 30)
  && (Fin 500000 <=? RiskFactors.income f)
  && (Fin 60 <=? RiskFactors.accountAge f)
  && (RiskFactors.fraudAlerts f === Fin 0).

(** The structure with another utilization rate. *)
Definition withUtilizationRate (u : num) (f : RiskFactors.t) : RiskFactors.t :=
  {| RiskFactors.creditScore := RiskFactors.creditScore f;
     RiskFactors.income := RiskFactors.income f;
     RiskFactors.paymentHistory := RiskFactors.paymentHistory f;
     RiskFactors.utilizationRate := u;
     RiskFactors.accountAge := RiskFactors.accountAge f;
     RiskFactors.fraudAlerts := RiskFactors.fraudAlerts f;
     RiskFactors.transactionPattern := RiskFactors.transactionPattern f;
     RiskFactors.avgTransactionAmount := RiskFactors.avgTransactionAmount f |}.

(** A record whose payment history is missing. *)
Definition customer_unknown_history : Customer :=
  {| id := "CUST-0002"; name := "Customer 2"; age := Fin 30;
     income := Fin 700000; creditScore := Fin 800;
     accountBalance := Fin 50000; transactionCount := Fin 25;
     avgTransactionAmount := Fin 5000;
     riskScore := Fin 0; riskCategory := Medium; segment := "";
     city := "Mumbai"; state := "Maharashtra";
     joinDate := "2024-01-15"; lastTransactionDate := "2024-06-15";
     fraudAlerts := Fin 0; paymentHistory := NaN;
     utilizationRate := Fin 10; accountAge := Fin 48 |}.


(** NaN, the positive infinity, or a finite number that is not negative. *)
Definition notNegative (a : num) : Prop := a = NaN ∨ a = PInf ∨ nonneg a.

(** The number of customers whose utilization rate is below 20. *)
Definition lowUtilizationCount (customers : list Customer) : nat :=
  length (List.filter (λ c, utilizationRate c <? Fin 20) customers).

(** The number of customers of a category. *)
Definition categoryCount (category : RiskCategory) (customers : list Customer) : nat :=
  length (List.filter (λ c, bool_decide (riskCategory c = category)) customers).

(** The key of the month in which the customer joined; [None] for an
    invalid join date. *)
Definition monthOf (Date_parse : string → option Z) (Date_toISOString : Z → string)
    (c : Customer) : option string :=
  (λ t, String.substring 0 7 (Date_toISOString t)) <$> Date_parse (joinDate c).

(** The number of customers who joined in the month. *)
Definition joinedIn (Date_parse : string → option Z) (Date_toISOString : Z → string)
    (month : string) (customers : list Customer) : nat :=
  length (List.filter
            (λ c, bool_decide (monthOf Date_parse Date_toISOString c = Some month))
            customers).

(** The entries of the map hold, under distinct keys, the months in which
    the customers joined and the numbers of customers who joined in them. *)
Definition monthsOf (Date_parse : string → option Z) (Date_toISOString : Z → string)
    (monthlyData : list (string * MonthData.t)) (customers : list Customer) : Prop :=
  NoDup (map fst monthlyData) ∧
  ∀ month : string,
    match Map_get monthlyData month with
    | Some data =>
        ∃ q : Q, MonthData.newCustomers data = Fin q ∧
                 q == inject_Z (Z.of_nat
                        (joinedIn Date_parse Date_toISOString month customers)) ∧
                 (1 ≤ joinedIn Date_parse Date_toISOString month customers)%nat
    | None => joinedIn Date_parse Date_toISOString month customers = 0%nat
    end.


(** A comparison of strings by their bytes. *)
Definition compareBytes (a b : string) : num :=
  match String.compare a b with
  | Lt => Fin (-1)
  | Eq => Fin 0
  | Gt => Fin 1
  end.

(** The number is neither 0 nor NaN: it is truthy. *)
Definition truthy (a : num) : bool :=
  match a with
  | NaN => false
  | Fin q => negb (Qeq_bool q 0)
  | _ => true
  end.

(** The record of the row [index] of a file in which no column is
    recognised: the default of every field. *)
Definition defaultCustomer (String_of_index : nat → string) (today : string)
    (index : nat) : Customer :=
  {| id := "CUST-" +:+ padStart_zero 4 (String_of_index index);
     name := "Customer " +:+ String_of_index index;
     age := Fin 30; income := Fin 300000; creditScore := Fin 650;
     accountBalance := Fin 50000; transactionCount := Fin 25;
     avgTransactionAmount := Fin 5000;
     riskScore := Fin 0; riskCategory := Medium; segment := "";
     city := "Mumbai"; state := "Maharashtra";
     joinDate := today; lastTransactionDate := today;
     fraudAlerts := Fin 0; paymentHistory := Fin 85;
     utilizationRate := Fin 45; accountAge := Fin 24 |}.

(** A [parseInt] that reads the numerals of the sample file. *)
Definition parseInt_sample (s : string) : num :=
  if String.eqb s "0" then Fin 0
  else if String.eqb s "36" then Fin 36
  else if String.eqb s "450000" then Fin 450000
  else NaN.

(** The names under which [parseCustomerFromCSV] looks its fields up. *)
Definition fieldNames : list string :=
  [ "id"; "name"; "age"; "income"; "credit"; "balance"; "transactions";
    "avg_transaction"; "city"; "state"; "join_date"; "last_transaction";
    "fraud_alerts"; "payment_history"; "utilization"; "account_age" ].

(** The names of the fields that [parseCustomerFromCSV] reads with
    [parseInt]. *)
Definition numericFieldNames : list string :=
  [ "age"; "income"; "credit"; "balance"; "transactions"; "avg_transaction";
    "fraud_alerts"; "payment_history"; "utilization"; "account_age" ].

(** The number is NaN or an integer: what [parseInt] returns on every
    string but a numeral beyond the range of numbers, where it returns an
    infinity. *)
Definition integerOrNaN (a : num) : bool :=
  match a with
  | NaN => true
  | Fin q => Qeq_bool q (inject_Z (Qfloor q))
  | _ => false
  end.

(** The values of the key are strings: [typeof value] is not number. *)
Definition stringKey (field : CustomerKey) : bool :=
  match field with
  | K_id | K_name | K_riskCategory | K_segment | K_city | K_state
  | K_joinDate | K_lastTransactionDate => true
  | _ => false
  end.

(** [s.toLowerCase()] on a string of ASCII characters. *)
Definition toLowerCase_ascii (a : Ascii.ascii) : Ascii.ascii :=
  let n := Ascii.N_of_ascii a in
  if ((65 <=? n) && (n <=? 90))%N then Ascii.ascii_of_N (n + 32) else a.

Fixpoint toLowerCase_bytes (s : string) : string :=
  match s with
  | EmptyString => EmptyString
  | String a s' => String (toLowerCase_ascii a) (toLowerCase_bytes s')
  end.

(** [a.includes(b)]. *)
Definition includes_bytes (a b : string) : bool :=
  match String.index 0 b a with
  | Some _ => true
  | None => false
  end.

(** [parseInt(s)] on a string without leading white space and without a
    hexadecimal prefix, short of the infinities: an optional sign (the
    characters 45 and 43), then the longest run of decimal digits; NaN when
    there is no digit. *)
Definition digitOf (a : Ascii.ascii) : option Z :=
  let n := Z.of_N (Ascii.N_of_ascii a) in
  if ((48 <=? n) && (n <=? 57))%Z then Some (n - 48)%Z else None.

Fixpoint digitsOf (acc : option Z) (s : string) : option Z :=
  match s with
  | EmptyString => acc
  | String a s' =>
      match digitOf a with
      | Some d => digitsOf (Some (10 * default 0 acc + d)%Z) s'
      | None => acc
      end
  end.

Definition parseInt_decimal (s : string) : num :=
  let signed :=
    match s with
    | String a s' =>
        if (Ascii.N_of_ascii a =? 45)%N then ((-1)%Z, s')
        else if (Ascii.N_of_ascii a =? 43)%N then (1%Z, s')
        else (1%Z, s)
    | EmptyString => (1%Z, s)
    end in
  match digitsOf None (snd signed) with
  | Some z => Fin (inject_Z (fst signed * z))
  | None => NaN
  end.

(** ** Arithmetic of finite numbers *)

Lemma isFinite_Fin a : isFinite a = true ↔ ∃ q, a = Fin q.
Proof.
  split.
  - destruct a; try discriminate. eauto.
  - intros [q ->]. reflexivity.
Qed.

Lemma sub_Fin x y : Fin x - Fin y = Fin (x + - y).
Proof. reflexivity. Qed.

Lemma div_Fin x y : Qeq_bool y 0 = false → Fin x / Fin y = Fin (x / y).
Proof. intros H. unfold JS.div. rewrite H. reflexivity. Qed.

Lemma lt_Fin x y : (Fin x <? Fin y) = negb (Qle_bool y x).
Proof. reflexivity. Qed.

Lemma lt_Fin_true x y : (Fin x <? Fin y) = true ↔ x < y.
Proof.
  rewrite lt_Fin, negb_true_iff. split.
  - intros H. apply Qnot_le_lt. intros Hle. apply Qle_bool_iff in Hle. congruence.
  - intros H. destruct (Qle_bool y x) eqn:E; [|reflexivity].
    apply Qle_bool_iff in E. lra.
Qed.

Lemma lt_Fin_false x y : (Fin x <? Fin y) = false ↔ y <= x.
Proof.
  rewrite lt_Fin, negb_false_iff. apply Qle_bool_iff.
Qed.

Lemma nonneg_isFinite a : nonneg a → isFinite a = true.
Proof. intros (q & -> & _). reflexivity. Qed.

Lemma nonneg_zero : nonneg (Fin 0).
Proof. exists 0. split; [reflexivity | lra]. Qed.

Lemma nonneg_add a b : nonneg a → nonneg b → nonneg (a + b).
Proof.
  intros (x & -> & Hx) (y & -> & Hy). exists (x + y)%Q. split; [reflexivity | lra].
Qed.

Lemma nonneg_mul_const a k : nonneg a → 0 <= k → nonneg (a * Fin k).
Proof.
  intros (x & -> & Hx) Hk. exists (x * k)%Q. split; [reflexivity|].
  apply Qmult_le_0_compat; assumption.
Qed.

Lemma nonneg_max_zero a : isFinite a = true → nonneg (Math_max (Fin 0) a).
Proof.
  intros [x ->]%isFinite_Fin. unfold Math_max.
  destruct (Fin 0 <? Fin x) eqn:E.
  - apply lt_Fin_true in E. exists x. split; [reflexivity | lra].
  - apply nonneg_zero.
Qed.

Lemma isFinite_add a b : isFinite a = true → isFinite b = true → isFinite (a + b) = true.
Proof. intros [x ->]%isFinite_Fin [y ->]%isFinite_Fin. reflexivity. Qed.

Lemma isFinite_sub a b : isFinite a = true → isFinite b = true → isFinite (a - b) = true.
Proof. intros [x ->]%isFinite_Fin [y ->]%isFinite_Fin. reflexivity. Qed.

Lemma isFinite_mul a b : isFinite a = true → isFinite b = true → isFinite (a * b) = true.
Proof. intros [x ->]%isFinite_Fin [y ->]%isFinite_Fin. reflexivity. Qed.

Lemma isFinite_div_const a k :
  isFinite a = true → Qeq_bool k 0 = false → isFinite (a / Fin k) = true.
Proof. intros [x ->]%isFinite_Fin Hk. rewrite div_Fin by assumption. reflexivity. Qed.

Lemma isFinite_min a b : isFinite a = true → isFinite b = true → isFinite (Math_min a b) = true.
Proof.
  intros [x ->]%isFinite_Fin [y ->]%isFinite_Fin. unfold Math_min.
  destruct (Fin y <? Fin x); reflexivity.
Qed.

(** The utilization term. *)
Lemma nonneg_utilizationRisk u :
  isFinite u = true →
  nonneg (if u >? Fin 30 then (u - Fin 30) / Fin 70 else Fin 0).
Proof.
  intros [x ->]%isFinite_Fin. unfold JS.gt.
  destruct (Fin 30 <? Fin x) eqn:E; [|apply nonneg_zero].
  apply lt_Fin_true in E. rewrite sub_Fin, div_Fin by reflexivity.
  eexists. split; [reflexivity|].
  apply Qle_shift_div_l; lra.
Qed.

(** The fraud term, which is bounded from above only. *)
Lemma isFinite_fraudRisk f :
  isFinite f = true → isFinite (Math_min (Fin 1) (f / Fin 5)) = true.
Proof.
  intros Hf. apply isFinite_min; [reflexivity|].
  apply isFinite_div_const; [assumption | reflexivity].
Qed.

Lemma le_Fin k x : (Fin k <=? Fin x) = true ↔ k <= x.
Proof.
  unfold JS.le. rewrite negb_true_iff. apply lt_Fin_false.
Qed.

Lemma le_zero_Fin x : (Fin 0 <=? Fin x) = true ↔ 0 <= x.
Proof. apply le_Fin. Qed.

Lemma nonneg_fraudRisk f :
  isFinite f = true → (Fin 0 <=? f) = true →
  nonneg (Math_min (Fin 1) (f / Fin 5)).
Proof.
  intros [x ->]%isFinite_Fin Hx%le_zero_Fin.
  rewrite div_Fin by reflexivity. unfold Math_min.
  destruct (Fin (x / 5) <? Fin 1) eqn:E.
  - eexists. split; [reflexivity|]. apply Qle_shift_div_l; lra.
  - exists 1. split; [reflexivity | lra].
Qed.

(** Rounding and the final ceiling. *)
Lemma Math_round_Fin x : Math_round (Fin x) = Fin (inject_Z (Qfloor (x + (1 # 2)))).
Proof. reflexivity. Qed.

Lemma round_min100 s :
  isFinite s = true →
  ∃ z : Z, Math_min (Fin 100) (Math_round s) = Fin (inject_Z z) ∧ (z ≤ 100)%Z
           ∧ (nonneg s → (0 ≤ z)%Z).
Proof.
  intros [x ->]%isFinite_Fin. rewrite Math_round_Fin. unfold Math_min.
  set (r := Qfloor (x + (1 # 2))).
  destruct (Fin (inject_Z r) <? Fin 100) eqn:E.
  - apply lt_Fin_true in E. exists r. split; [reflexivity|]. split.
    + change 100 with (inject_Z 100) in E. rewrite <- Zlt_Qlt in E.
      apply Z.lt_le_incl, E.
    + intros (q & [= <-] & Hq). subst r.
      rewrite <- (Qfloor_Z 0). apply Qfloor_resp_le.
      change (inject_Z 0) with 0. lra.
  - exists 100%Z. split; [reflexivity|]. split; lia.
Qed.

(** ** Risk scoring *)

(** The score of finite factors is an integer that is at most 100, and is
    not negative when the number of fraud alerts is not. *)
Lemma computeWeightedRiskScore_integer (f : RiskFactors.t) :
  isFinite (RiskFactors.creditScore f) = true →
  isFinite (RiskFactors.paymentHistory f) = true →
  isFinite (RiskFactors.utilizationRate f) = true →
  isFinite (RiskFactors.income f) = true →
  isFinite (RiskFactors.accountAge f) = true →
  isFinite (RiskFactors.fraudAlerts f) = true →
  ∃ z : Z, computeWeightedRiskScore f = Fin (inject_Z z) ∧ (z ≤ 100)%Z
           ∧ ((Fin 0 <=? RiskFactors.fraudAlerts f) = true → (0 ≤ z)%Z).
Proof.
  intros Hcs Hph Hur Hin Hage Hfa. unfold computeWeightedRiskScore. cbv zeta.
  assert (Hterm : ∀ a top k, isFinite a = true → Qeq_bool k 0 = false →
            nonneg (Math_max (Fin 0) ((Fin top - a) / Fin k))).
  { intros a top k Ha Hk. apply nonneg_max_zero, isFinite_div_const; [|assumption].
    apply isFinite_sub; [reflexivity | assumption]. }
  pose proof (Hterm _ 850 450 Hcs eq_refl) as H1.
  pose proof (Hterm _ 100 100 Hph eq_refl) as H2.
  pose proof (nonneg_utilizationRisk _ Hur) as H3.
  pose proof (Hterm _ 500000 500000 Hin eq_refl) as H4.
  pose proof (Hterm _ 60 60 Hage eq_refl) as H5.
  pose proof (isFinite_fraudRisk _ Hfa) as H6.
  match goal with |- ∃ z, Math_min _ (Math_round ?s) = _ ∧ _ => set (score := s) end.
  assert (Hprefix : nonneg
    (Fin 0 + Math_max (Fin 0) ((Fin 850 - RiskFactors.creditScore f) / Fin 450) * Fin 35
     + Math_max (Fin 0) ((Fin 100 - RiskFactors.paymentHistory f) / Fin 100) * Fin 35
     + (if RiskFactors.utilizationRate f >? Fin 30
        then (RiskFactors.utilizationRate f - Fin 30) / Fin 70 else Fin 0) * Fin 15
     + Math_max (Fin 0) ((Fin 500000 - RiskFactors.income f) / Fin 500000) * Fin 10
     + Math_max (Fin 0) ((Fin 60 - RiskFactors.accountAge f) / Fin 60) * Fin 3)).
  { repeat apply nonneg_add; try apply nonneg_zero;
      apply nonneg_mul_const; try assumption; lra. }
  assert (Hfin : isFinite score = true).
  { subst score. apply isFinite_add; [apply nonneg_isFinite, Hprefix|].
    apply isFinite_mul; [assumption | reflexivity]. }
  destruct (round_min100 score Hfin) as (z & Hz & Hle & Hnn).
  exists z. split; [assumption|]. split; [assumption|].
  intros Hpos. apply Hnn. subst score. apply nonneg_add; [assumption|].
  apply nonneg_mul_const; [|lra]. apply nonneg_fraudRisk; assumption.
Qed.

(** The fields of a record with finite numeric fields. *)
Lemma finiteFields_elim (c : Customer) :
  finiteFields c = true →
  isFinite (income c) = true ∧ isFinite (creditScore c) = true ∧
  isFinite (transactionCount c) = true ∧
  isFinite (avgTransactionAmount c) = true ∧
  isFinite (fraudAlerts c) = true ∧ isFinite (paymentHistory c) = true ∧
  isFinite (utilizationRate c) = true ∧ isFinite (accountAge c) = true.
Proof.
  unfold finiteFields. cbn [forallb]. rewrite !andb_true_iff. tauto.
Qed.

Lemma calculateRiskScore_integer (c : Customer) :
  finiteFields c = true →
  ∃ z : Z, calculateRiskScore c = Fin (inject_Z z) ∧ (z ≤ 100)%Z
           ∧ ((Fin 0 <=? fraudAlerts c) = true → (0 ≤ z)%Z).
Proof.
  intros (Hin & Hcs & _ & _ & Hfa & Hph & Hur & Hage)%finiteFields_elim.
  unfold calculateRiskScore. cbv zeta.
  apply computeWeightedRiskScore_integer; assumption.
Qed.

(** X18.  For every customer record whose numeric fields are finite and
    whose number of fraud alerts is not negative, which includes the extreme
    values creditScore=0, income=0, utilizationRate=100 and fraudAlerts=1000,
    [calculateRiskScore] returns an integer between 0 and 100: the five
    terms with a floor at 0 and the final [Math.min(100, ...)] keep the
    score in range as long as the fraud term is not negative. *)
Theorem calculateRiskScore_in_range (c : Customer) :
  finiteFields c = true →
  (Fin 0 <=? fraudAlerts c) = true →
  inScoreRange (calculateRiskScore c).
Proof.
  intros Hfin Hfa.
  destruct (calculateRiskScore_integer c Hfin) as (z & Hz & Hle & Hnn).
  exists z. split; [assumption|]. split; [apply Hnn, Hfa | assumption].
Qed.

Lemma calculateRiskScore_in_range_witness :
  calculateRiskScore customer_extreme = Fin 100 ∧
  inScoreRange (calculateRiskScore customer_extreme).
Proof.
  split; [reflexivity|].
  apply (calculateRiskScore_in_range customer_extreme); reflexivity.
Defined.

(** C1.  The code leaves the range at this record, the defaults of the
    CSV ingestion with fraud_alerts = -1000: every numeric field is finite,
    and the score is -370.  Five of the six terms of
    [computeWeightedRiskScore] have a floor at 0 ([Math.max(0, ...)], or the
    test [> 30] of the utilization); the fraud term
    [Math.min(1, fraudAlerts / 5)] has a ceiling only, and the result is
    clamped by [Math.min(100, ...)] only. *)
Lemma calculateRiskScore_negative_alerts :
  finiteFields customer_negative_alerts = true ∧
  calculateRiskScore customer_negative_alerts = Fin (-370) ∧
  ¬ inScoreRange (calculateRiskScore customer_negative_alerts).
Proof.
  split; [reflexivity|]. split; [reflexivity|].
  intros (z & Hz & Hrange). vm_compute in Hz.
  injection Hz as Hz. lia.
Qed.

(** C2.  The category is a function of the score alone, with strict tests:
    a score below 30 is Low, a score from 30 and below 70 is Medium, a score
    from 70 is High; so 29 is Low, 30 and 69 are Medium and 70 is High. *)
Theorem riskCategoryOf_boundaries :
  (∀ s : num, (s <? Fin 30) = true → riskCategoryOf s = Low) ∧
  (∀ s : num, (Fin 30 <=? s) = true → (s <? Fin 70) = true →
     riskCategoryOf s = Medium) ∧
  (∀ s : num, (s >=? Fin 70) = true → riskCategoryOf s = High) ∧
  riskCategoryOf (Fin 29) = Low ∧ riskCategoryOf (Fin 30) = Medium ∧
  riskCategoryOf (Fin 69) = Medium ∧ riskCategoryOf (Fin 70) = High.
Proof.
  assert (Hnot : ∀ (s : num) (k : Q), (Fin k <=? s) = true → (s <? Fin k) = false).
  { intros s k H. destruct s; try discriminate; unfold JS.le in H;
      apply negb_true_iff in H; exact H. }
  assert (Hmono : ∀ s : num, (Fin 70 <=? s) = true → (s <? Fin 30) = false).
  { intros [x| | |] H; try discriminate; try reflexivity.
    apply le_Fin in H. apply lt_Fin_false. lra. }
  repeat split; try reflexivity.
  - intros s H. unfold riskCategoryOf. rewrite H. reflexivity.
  - intros s H30 H70. unfold riskCategoryOf. rewrite (Hnot _ _ H30), H70. reflexivity.
  - intros s H. unfold JS.ge in H. unfold riskCategoryOf.
    rewrite (Hmono _ H), (Hnot _ _ H). reflexivity.
Qed.

Lemma riskCategoryOf_boundaries_witness :
  riskCategoryOf (Fin 12) = Low ∧ riskCategoryOf (Fin 45) = Medium ∧
  riskCategoryOf (Fin 88) = High.
Proof.
  destruct riskCategoryOf_boundaries as (Hlow & Hmedium & Hhigh & _).
  split; [apply (Hlow (Fin 12)); reflexivity|].
  split; [apply (Hmedium (Fin 45)); reflexivity|].
  apply (Hhigh (Fin 88)); reflexivity.
Defined.

(** C3.  Segment assignment takes the first predicate that holds, in the
    order Premium, Gold, Silver, with Basic as the default: a customer who
    meets the Premium predicate is Premium whatever the later predicates say;
    a customer with income 700000 and risk score 35 meets all three and is
    Premium. *)
Theorem assignCustomerSegment_first_match (c : Customer) :
  (meetsPremium c = true → assignCustomerSegment c = "Premium") ∧
  (meetsPremium c = false → meetsGold c = true →
     assignCustomerSegment c = "Gold") ∧
  (meetsPremium c = false → meetsGold c = false → meetsSilver c = true →
     assignCustomerSegment c = "Silver") ∧
  (meetsPremium c = false → meetsGold c = false → meetsSilver c = false →
     assignCustomerSegment c = "Basic") ∧
  (income c = Fin 700000 → riskScore c = Fin 35 →
     meetsPremium c = true ∧ meetsGold c = true ∧ meetsSilver c = true ∧
     assignCustomerSegment c = "Premium").
Proof.
  unfold assignCustomerSegment, meetsPremium, meetsGold, meetsSilver.
  split; [intros ->; reflexivity|].
  split; [intros -> ->; reflexivity|].
  split; [intros -> -> ->; reflexivity|].
  split; [intros -> -> ->; reflexivity|].
  intros Hincome Hscore. rewrite Hincome, Hscore. repeat split.
Qed.

Lemma assignCustomerSegment_first_match_witness :
  assignCustomerSegment
    (set_riskScore (Fin 35) (customerOf 700000 650 85 45 24 0 25 5000)) = "Premium".
Proof.
  apply (assignCustomerSegment_first_match
           (set_riskScore (Fin 35) (customerOf 700000 650 85 45 24 0 25 5000)));
    reflexivity.
Defined.

(** C7, as amended.  The ratio transactionCount / accountAge is not guarded:
    for a customer with finite fields and accountAge = 0 the field
    transactionPattern of the structure is an infinity or NaN.  The scoring
    never reads that field, and [calculateRiskScore] still returns a finite
    integer, which is at most 100. *)
Theorem calculateRiskScore_accountAge_zero (c : Customer) :
  finiteFields c = true →
  (accountAge c === Fin 0) = true →
  isFinite (RiskFactors.transactionPattern (riskFactors c)) = false ∧
  ∃ z : Z, calculateRiskScore c = Fin (inject_Z z) ∧ (z ≤ 100)%Z.
Proof.
  intros Hfin Hzero. split.
  - apply finiteFields_elim in Hfin as (_ & _ & Htc & _ & _ & _ & _ & Hage).
    apply isFinite_Fin in Htc as [t Ht]. apply isFinite_Fin in Hage as [a Ha].
    cbn [riskFactors RiskFactors.transactionPattern].
    rewrite Ht, Ha. rewrite Ha in Hzero. cbn [JS.strictEq] in Hzero.
    unfold JS.div. rewrite Hzero.
    destruct (Qeq_bool t 0); [reflexivity|]. destruct (Qle_bool 0 t); reflexivity.
  - destruct (calculateRiskScore_integer c Hfin) as (z & Hz & Hle & _). eauto.
Qed.

Lemma calculateRiskScore_accountAge_zero_witness :
  isFinite (RiskFactors.transactionPattern (riskFactors customer_new_account)) = false ∧
  ∃ z : Z, calculateRiskScore customer_new_account = Fin (inject_Z z) ∧ (z ≤ 100)%Z.
Proof.
  apply (calculateRiskScore_accountAge_zero customer_new_account); reflexivity.
Defined.

(** C7, as stated, fails: the fields of this record are finite, its account
    age is 0, and the structure built from it holds an infinity. *)
Lemma riskFactors_accountAge_zero_infinite :
  finiteFields customer_new_account = true ∧
  accountAge customer_new_account = Fin 0 ∧
  RiskFactors.transactionPattern (riskFactors customer_new_account) = PInf ∧
  finiteFactors (riskFactors customer_new_account) = false.
Proof. repeat split. Qed.

(** ** The batch pipeline *)

Lemma processCustomer_run (l : loc) (heap : store) (c : Customer) :
  heap !! l = Some c →
  processCustomer l heap = Some (l, <[l := derive c]> heap).
Proof.
  intros Hl. unfold processCustomer. rewrite Hl. cbn [mbind option_bind].
  rewrite lookup_insert_eq. cbn [mbind option_bind].
  rewrite lookup_insert_eq. cbn [mbind option_bind].
  rewrite !insert_insert_eq. reflexivity.
Qed.

(** The derived fields are computed from the other fields only. *)
Lemma derive_idempotent (c : Customer) : derive (derive c) = derive c.
Proof. destruct c. reflexivity. Qed.

Lemma derive_fields (c : Customer) :
  sameInputFields c (derive c) ∧
  riskScore (derive c) = calculateRiskScore c ∧
  riskCategory (derive c) = riskCategoryOf (calculateRiskScore c) ∧
  segment (derive c) =
    assignCustomerSegment (set_riskScore (calculateRiskScore c) c).
Proof. destruct c. repeat split. Qed.

Lemma processNewCustomerData_run (rawCustomers : list loc) (heap : store) :
  allocated heap rawCustomers →
  ∃ heap' : store,
    processNewCustomerData rawCustomers heap = Some (rawCustomers, heap') ∧
    ∀ l, heap' !! l =
         if decide (l ∈ rawCustomers) then derive <$> heap !! l else heap !! l.
Proof.
  unfold allocated. revert heap.
  induction rawCustomers as [|l0 rest IH]; intros heap Halloc.
  - exists heap. split; [reflexivity|]. intros l.
    rewrite decide_False; [reflexivity | apply not_elem_of_nil].
  - apply Forall_cons in Halloc as [[c Hc] Hrest].
    destruct (IH (<[l0 := derive c]> heap)) as (heap' & Hrun & Hlook).
    { eapply Forall_impl; [exact Hrest|]. intros l Hl. cbn beta in *.
      destruct (decide (l0 = l)) as [->|Hne].
      - rewrite lookup_insert_eq. eauto.
      - rewrite lookup_insert_ne by assumption. assumption. }
    exists heap'. split.
    + cbn [processNewCustomerData]. rewrite (processCustomer_run _ _ _ Hc).
      cbn [mbind option_bind]. rewrite Hrun. reflexivity.
    + intros l. rewrite Hlook. destruct (decide (l0 = l)) as [<-|Hne].
      * rewrite lookup_insert_eq, Hc.
        rewrite (decide_True (P := l0 ∈ l0 :: rest)) by apply list_elem_of_here.
        destruct (decide (l0 ∈ rest)); cbn [fmap option_fmap option_map];
          rewrite ?derive_idempotent; reflexivity.
      * rewrite lookup_insert_ne by assumption.
        destruct (decide (l ∈ rest)) as [Hin|Hout].
        -- rewrite decide_True; [reflexivity | apply list_elem_of_further, Hin].
        -- rewrite decide_False; [reflexivity|].
           intros [?|?]%elem_of_cons; [congruence | contradiction].
Qed.

(** C10.  [processNewCustomerData] updates its input records in place: the
    returned array holds the very objects of the input array, no object is
    created, each object of the array has its three derived fields
    overwritten with the computed score, category and segment and every
    other field unchanged, and the objects outside the array are untouched. *)
Theorem processNewCustomerData_in_place (rawCustomers : list loc) (heap : store) :
  allocated heap rawCustomers →
  ∃ heap' : store,
    processNewCustomerData rawCustomers heap = Some (rawCustomers, heap') ∧
    dom heap' = dom heap ∧
    (∀ l c, l ∈ rawCustomers → heap !! l = Some c →
       ∃ c', heap' !! l = Some c' ∧
             sameInputFields c c' ∧
             riskScore c' = calculateRiskScore c ∧
             riskCategory c' = riskCategoryOf (calculateRiskScore c) ∧
             segment c' =
               assignCustomerSegment (set_riskScore (calculateRiskScore c) c)) ∧
    (∀ l, l ∉ rawCustomers → heap' !! l = heap !! l).
Proof.
  intros Halloc.
  destruct (processNewCustomerData_run _ _ Halloc) as (heap' & Hrun & Hlook).
  exists heap'. split; [assumption|]. split; [|split].
  - apply set_eq. intros l. rewrite !elem_of_dom, Hlook.
    destruct (decide (l ∈ rawCustomers)); [|reflexivity].
    rewrite fmap_is_Some. reflexivity.
  - intros l c Hin Hc. exists (derive c). rewrite Hlook, decide_True, Hc by assumption.
    split; [reflexivity|]. apply derive_fields.
  - intros l Hout. rewrite Hlook, decide_False by assumption. reflexivity.
Qed.

Lemma processNewCustomerData_in_place_witness :
  ∃ heap' : store,
    processNewCustomerData [2; 1; 2]%positive heap_sample
      = Some ([2; 1; 2]%positive, heap') ∧
    dom heap' = dom heap_sample ∧
    (∀ l c, l ∈ [2; 1; 2]%positive → heap_sample !! l = Some c →
       ∃ c', heap' !! l = Some c' ∧
             sameInputFields c c' ∧
             riskScore c' = calculateRiskScore c ∧
             riskCategory c' = riskCategoryOf (calculateRiskScore c) ∧
             segment c' =
               assignCustomerSegment (set_riskScore (calculateRiskScore c) c)) ∧
    (∀ l, l ∉ [2; 1; 2]%positive → heap' !! l = heap_sample !! l).
Proof.
  apply (processNewCustomerData_in_place [2; 1; 2]%positive heap_sample).
  repeat (apply Forall_cons; split; [eexists; reflexivity|]). apply Forall_nil.
  exact I.
Defined.

(** C9.  Recomputation is idempotent: a second call of
    [processNewCustomerData] on the same array, whose records the first call
    has updated, returns the same array and leaves every record as the first
    call left it; the derived fields depend on the other fields only. *)
Theorem processNewCustomerData_idempotent (rawCustomers : list loc) (heap : store) :
  allocated heap rawCustomers →
  ∃ heap' : store,
    processNewCustomerData rawCustomers heap = Some (rawCustomers, heap') ∧
    processNewCustomerData rawCustomers heap' = Some (rawCustomers, heap').
Proof.
  intros Halloc.
  destruct (processNewCustomerData_run _ _ Halloc) as (heap' & Hrun & Hlook).
  assert (Halloc' : allocated heap' rawCustomers).
  { unfold allocated in *. rewrite Forall_forall in *. intros l Hl.
    rewrite Hlook, decide_True by assumption. apply fmap_is_Some, Halloc, Hl. }
  destruct (processNewCustomerData_run _ _ Halloc') as (heap'' & Hrun' & Hlook').
  exists heap'. split; [assumption|]. rewrite Hrun'. do 2 f_equal.
  apply map_eq. intros l. rewrite Hlook'.
  destruct (decide (l ∈ rawCustomers)) as [Hin|Hout]; [|reflexivity].
  rewrite Hlook, decide_True by assumption.
  destruct (heap !! l); cbn [fmap option_fmap option_map];
    rewrite ?derive_idempotent; reflexivity.
Qed.

Lemma processNewCustomerData_idempotent_witness :
  ∃ heap' : store,
    processNewCustomerData [2; 1; 2]%positive heap_sample
      = Some ([2; 1; 2]%positive, heap') ∧
    processNewCustomerData [2; 1; 2]%positive heap' = Some ([2; 1; 2]%positive, heap').
Proof.
  apply (processNewCustomerData_idempotent [2; 1; 2]%positive heap_sample).
  repeat (apply Forall_cons; split; [eexists; reflexivity|]). apply Forall_nil.
  exact I.
Defined.

(** ** Computations in [M] *)

Lemma bind_result {A B : Type} (m : M A) (k : A → M B) :
  result (m ≫= k) = result m ≫= (λ a, result (k a)).
Proof. unfold mbind at 1, M_bind. destruct (result m); reflexivity. Qed.

Lemma bind_result_Some {A B : Type} (m : M A) (k : A → M B) (a : A) :
  result m = Some a → result (m ≫= k) = result (k a).
Proof. intros H. rewrite bind_result, H. reflexivity. Qed.

Lemma filterM_result {A : Type} (f : A → M bool) (l : list A) :
  (∀ x, is_Some (result (f x))) →
  result (filterM f l)
  = Some (List.filter (λ x, default false (result (f x))) l).
Proof.
  intros Hf. induction l as [|x l IH]; [reflexivity|].
  cbn [filterM List.filter]. rewrite bind_result.
  destruct (Hf x) as [b Hb]. rewrite Hb. cbn [mbind option_bind default].
  rewrite bind_result, IH. cbn [mbind option_bind].
  destruct b; reflexivity.
Qed.

Lemma mapM_result {A B : Type} (f : A → M B) (R : A → B → Prop) (l : list A) :
  (∀ x, ∃ y, result (f x) = Some y ∧ R x y) →
  ∃ ys, result (mapM f l) = Some ys ∧ Forall2 R l ys.
Proof.
  intros Hf. induction l as [|x l (ys & Hys & HR)].
  - exists []. split; [reflexivity | constructor].
  - destruct (Hf x) as (y & Hy & Hxy). exists (y :: ys). split.
    + cbn [mapM]. rewrite bind_result, Hy. cbn [mbind option_bind].
      rewrite bind_result, Hys. reflexivity.
    + constructor; assumption.
Qed.

(** ** Fraud detection *)

Lemma calculateAverage_run (customers : list Customer) (field : CustomerKey) :
  calculateAverage customers field
  = Run (Some (mean customers field))
        [Division (fieldSum customers field) (JS.of_nat (length customers))].
Proof. reflexivity. Qed.

Lemma calculateAverage_result (customers : list Customer) (field : CustomerKey) :
  result (calculateAverage customers field) = Some (mean customers field).
Proof. reflexivity. Qed.

Lemma calculateAnomalyScore_returns (c : Customer) (cs : list Customer) :
  is_Some (result (calculateAnomalyScore c cs)).
Proof. eexists. reflexivity. Qed.

Lemma nonneg_abs a : isFinite a = true → nonneg (Math_abs a).
Proof.
  intros [x ->]%isFinite_Fin. unfold Math_abs.
  destruct (Qle_bool 0 x) eqn:E.
  - apply Qle_bool_iff in E. exists x. split; [reflexivity | assumption].
  - exists (- x)%Q. split; [reflexivity|].
    assert (¬ 0 <= x) by (intros H%Qle_bool_iff; congruence). lra.
Qed.

Lemma nonneg_div_const a k : nonneg a → 0 < k → nonneg (a / Fin k).
Proof.
  intros (x & -> & Hx) Hk. rewrite div_Fin.
  - eexists. split; [reflexivity|]. apply Qle_shift_div_l; lra.
  - destruct (Qeq_bool k 0) eqn:E; [|reflexivity]. apply Qeq_bool_eq in E. lra.
Qed.

Lemma min_one_unit a : nonneg a → inUnitInterval (Math_min (Fin 1) a).
Proof.
  intros (x & -> & Hx). unfold Math_min. destruct (Fin x <? Fin 1) eqn:E.
  - apply lt_Fin_true in E. exists x. split; [reflexivity | lra].
  - exists 1. split; [reflexivity | lra].
Qed.

(** A deviation from a mean that is finite and not zero. *)
Lemma nonneg_deviation (v : num) (m : Q) :
  isFinite v = true → ¬ m == 0 →
  nonneg (Math_abs ((v - Fin m) / (Fin m * Fin 0.5))).
Proof.
  intros [x ->]%isFinite_Fin Hm. apply nonneg_abs.
  change (Fin m * Fin 0.5) with (Fin (m * 0.5)). rewrite sub_Fin, div_Fin; [reflexivity|].
  destruct (Qeq_bool (m * 0.5) 0) eqn:E; [|reflexivity].
  apply Qeq_bool_eq in E. exfalso. apply Hm. lra.
Qed.

Lemma calculateAnomalyScore_result (c : Customer) (cs : list Customer) :
  result (calculateAnomalyScore c cs)
  = Some (Math_min (Fin 1)
      ((Math_abs ((income c - mean cs K_income) / (mean cs K_income * Fin 0.5))
          * Fin 0.3
        + Math_abs ((avgTransactionAmount c - mean cs K_avgTransactionAmount)
                    / (mean cs K_avgTransactionAmount * Fin 0.5)) * Fin 0.4
        + Math_abs ((transactionCount c - mean cs K_transactionCount)
                    / (mean cs K_transactionCount * Fin 0.5)) * Fin 0.3)
       / Fin 3)).
Proof. reflexivity. Qed.

Lemma calculateAnomalyScore_divisions (c : Customer) (cs : list Customer) :
  divisions (calculateAnomalyScore c cs)
  = [ Division (fieldSum cs K_income) (JS.of_nat (length cs));
      Division (fieldSum cs K_avgTransactionAmount) (JS.of_nat (length cs));
      Division (fieldSum cs K_transactionCount) (JS.of_nat (length cs));
      Division (income c - mean cs K_income) (mean cs K_income * Fin 0.5);
      Division (avgTransactionAmount c - mean cs K_avgTransactionAmount)
               (mean cs K_avgTransactionAmount * Fin 0.5);
      Division (transactionCount c - mean cs K_transactionCount)
               (mean cs K_transactionCount * Fin 0.5);
      Division
        (Math_abs ((income c - mean cs K_income) / (mean cs K_income * Fin 0.5))
           * Fin 0.3
         + Math_abs ((avgTransactionAmount c - mean cs K_avgTransactionAmount)
                     / (mean cs K_avgTransactionAmount * Fin 0.5)) * Fin 0.4
         + Math_abs ((transactionCount c - mean cs K_transactionCount)
                     / (mean cs K_transactionCount * Fin 0.5)) * Fin 0.3)
        (Fin 3) ].
Proof. reflexivity. Qed.

(** C6, as amended.  For every customer whose income, average transaction
    amount and transaction count are finite and every population whose three
    rounded means are finite and not zero, the anomaly score lies between 0
    and 1, however large the deviations, and no division by zero is
    evaluated; and for every population
    [detectFraudPatterns] returns exactly the customers whose anomaly score
    exceeds 0.7, in their order. *)
Theorem calculateAnomalyScore_in_unit_interval (cs : list Customer) :
  (∀ (c : Customer) (meanIncome meanAmount meanCount : Q),
     isFinite (income c) = true →
     isFinite (avgTransactionAmount c) = true →
     isFinite (transactionCount c) = true →
     result (calculateAverage cs K_income) = Some (Fin meanIncome) →
     result (calculateAverage cs K_avgTransactionAmount) = Some (Fin meanAmount) →
     result (calculateAverage cs K_transactionCount) = Some (Fin meanCount) →
     ¬ meanIncome == 0 → ¬ meanAmount == 0 → ¬ meanCount == 0 →
     (∃ anomalyScore : num,
        result (calculateAnomalyScore c cs) = Some anomalyScore ∧
        inUnitInterval anomalyScore) ∧
     Forall (λ d, byZero d = false) (divisions (calculateAnomalyScore c cs))) ∧
  result (detectFraudPatterns cs)
  = Some (List.filter (λ c, exceedsThreshold c cs) cs).
Proof.
  split.
  - intros c mI mA mT Hi Ha Ht HmI HmA HmT HI HA HT.
    rewrite calculateAverage_run in HmI, HmA, HmT.
    injection HmI as HmI. injection HmA as HmA. injection HmT as HmT.
    split.
    + eexists. split; [apply calculateAnomalyScore_result|].
      rewrite HmI, HmA, HmT. apply min_one_unit, nonneg_div_const; [|lra].
      repeat apply nonneg_add; apply nonneg_mul_const; try lra;
        apply nonneg_deviation; assumption.
    + assert (Hpop : byZero (Division (fieldSum cs K_income) (JS.of_nat (length cs)))
                     = false).
      { destruct cs; [discriminate HmI|]. reflexivity. }
      assert (Hhalf : ∀ (a : num) (m : Q), ¬ m == 0 →
                byZero (Division a (Fin m * Fin 0.5)) = false).
      { intros a m Hm. unfold byZero. cbn [divisor JS.mul JS.strictEq].
        destruct (Qeq_bool (m * 0.5) 0) eqn:E; [|reflexivity].
        apply Qeq_bool_eq in E. exfalso. apply Hm. lra. }
      rewrite calculateAnomalyScore_divisions, HmI, HmA, HmT.
      repeat (apply Forall_cons; split);
        first [exact Hpop | apply Hhalf; assumption | reflexivity | apply Forall_nil; exact I].
  - unfold detectFraudPatterns. rewrite filterM_result.
    + reflexivity.
    + intros c. rewrite bind_result.
      destruct (calculateAnomalyScore_returns c cs) as [s ->]. eexists. reflexivity.
Qed.

Lemma calculateAnomalyScore_in_unit_interval_witness :
  (∃ anomalyScore : num,
     result (calculateAnomalyScore customer_premium [customer_premium; customer_basic])
       = Some anomalyScore ∧
     inUnitInterval anomalyScore) ∧
  Forall (λ d, byZero d = false)
    (divisions (calculateAnomalyScore customer_premium
                  [customer_premium; customer_basic])).
Proof.
  apply (proj1 (calculateAnomalyScore_in_unit_interval [customer_premium; customer_basic])
           customer_premium 375000 5000 25); try reflexivity;
    intros H; vm_compute in H; discriminate H.
Defined.

(** C6, as stated, fails: in the population of this one customer the mean
    transaction count is 0, the deviation of the count is 0 / 0, and the
    anomaly score is NaN. *)
Lemma calculateAnomalyScore_zero_mean :
  finiteFields customer_idle = true ∧
  result (calculateAverage [customer_idle] K_transactionCount) = Some (Fin 0) ∧
  result (calculateAnomalyScore customer_idle [customer_idle]) = Some NaN ∧
  ¬ inUnitInterval NaN.
Proof.
  split; [reflexivity|]. split; [reflexivity|]. split; [reflexivity|].
  intros (q & Hq & _). discriminate Hq.
Qed.

(** ** The empty portfolio *)

(** C5.  For the empty customer list, segment analysis, fraud detection and
    monthly trends return an empty list, and so does recommendation
    generation on the segment analysis of the same empty list, as on any
    segments without a Premium entry of growth rate above 15; none of the
    four evaluates a division, whatever the segments. *)
Theorem aggregates_of_empty_list
    (Date_now : Z) (Date_parse : string → option Z)
    (Date_toISOString : Z → string) (Number_toString : num → string)
    (Number_toFixed : num → nat → string)
    (String_localeCompare : string → string → num)
    (segments : list SegmentAnalysis.t) :
  performSegmentAnalysis Date_now Date_parse [] = Run (Some []) [] ∧
  detectFraudPatterns [] = Run (Some []) [] ∧
  calculateMonthlyTrends Date_parse Date_toISOString String_localeCompare []
    = Run (Some []) [] ∧
  divisions (generateRecommendations Number_toString Number_toFixed [] segments) = [] ∧
  (premiumGrowth segments = false →
   generateRecommendations Number_toString Number_toFixed [] segments
     = Run (Some []) []) ∧
  (result (performSegmentAnalysis Date_now Date_parse []) = Some segments →
   generateRecommendations Number_toString Number_toFixed [] segments
     = Run (Some []) []).
Proof.
  assert (Hrun : premiumGrowth segments = false →
            generateRecommendations Number_toString Number_toFixed [] segments
            = Run (Some []) []).
  { unfold premiumGrowth, generateRecommendations. cbv zeta.
    destruct (List.find _ segments) as [premiumSegment|]; [|reflexivity].
    intros ->. reflexivity. }
  split; [reflexivity|]. split; [reflexivity|]. split; [reflexivity|].
  split; [|split].
  - unfold generateRecommendations. cbv zeta.
    destruct (List.find _ segments) as [premiumSegment|]; [|reflexivity].
    destruct (SegmentAnalysis.growthRate premiumSegment >? Fin 15); reflexivity.
  - exact Hrun.
  - intros [= <-]. apply Hrun. reflexivity.
Qed.

Lemma aggregates_of_empty_list_witness :
  generateRecommendations (λ _, "16") (λ _ _, "16.0") [] [] = Run (Some []) [].
Proof.
  apply (aggregates_of_empty_list 0%Z (λ _, None) (λ _, "") (λ _, "16")
           (λ _ _, "16.0") (λ _ _, Fin 0) []); reflexivity.
Defined.

(** ** Recommendations *)

(** The test of the first rule, on the counts. *)
Lemma high_risk_threshold (h n : nat) :
  (JS.of_nat h >? JS.of_nat n * Fin 0.15) = true ↔ (15 * n < 100 * h)%nat.
Proof.
  unfold JS.gt, JS.of_nat. change (Fin ?a * Fin ?b) with (Fin (a * b)).
  rewrite lt_Fin_true.
  assert (E : inject_Z (Z.of_nat n) * 0.15 < inject_Z (Z.of_nat h)
              ↔ inject_Z (15 * Z.of_nat n) < inject_Z (100 * Z.of_nat h)).
  { rewrite !inject_Z_mult.
    change (inject_Z 15) with 15%Q. change (inject_Z 100) with 100%Q.
    split; intros; lra. }
  rewrite E, <- Zlt_Qlt. lia.
Qed.

(** The recommendations are what the first rule appends, followed by what the
    other two rules append, which is never of type risk_management. *)
Lemma generateRecommendations_shape
    (Number_toString : num → string) (Number_toFixed : num → nat → string)
    (cs : list Customer) (segments : list SegmentAnalysis.t) :
  ∃ later : list Recommendation.t,
    result (generateRecommendations Number_toString Number_toFixed cs segments)
    = Some ((if JS.of_nat (highRiskCount cs) >? JS.of_nat (length cs) * Fin 0.15
             then [ {| Recommendation.type := "risk_management";
                       Recommendation.priority := critical;
                       Recommendation.message :=
                         Number_toString (JS.of_nat (highRiskCount cs)) +:+
                         " customers (" +:+
                         Number_toFixed
                           (JS.of_nat (highRiskCount cs) / JS.of_nat (length cs) * Fin 100) 1%nat +:+
                         "%) are high-risk. Implement stricter monitoring." |} ]
             else []) ++ later) ∧
    hasRiskManagement later = false.
Proof.
  unfold generateRecommendations, highRiskCount. cbv zeta. rewrite bind_result.
  destruct (_ >? _ * Fin 0.15); cbn [result mbind option_bind divide mret M_ret M_bind];
    destruct (List.find _ segments) as [premiumSegment|];
    try destruct (SegmentAnalysis.growthRate premiumSegment >? Fin 15);
    destruct (_ >? _ * Fin 0.3);
    eexists; (split; [reflexivity|]); reflexivity.
Qed.

(** C4.  The first rule fires on a strict threshold: the recommendations hold
    a risk_management entry exactly when the customers of category High are
    more than 15% of the population; the entry comes first, is critical, and
    its message embeds the count and the computed percentage; in a
    population of 100 it is there from 16 such customers on, and not at 15. *)
Theorem generateRecommendations_risk_management
    (Number_toString : num → string) (Number_toFixed : num → nat → string)
    (cs : list Customer) (segments : list SegmentAnalysis.t) :
  ∃ recommendations : list Recommendation.t,
    result (generateRecommendations Number_toString Number_toFixed cs segments)
    = Some recommendations ∧
    (hasRiskManagement recommendations = true
     ↔ (15 * length cs < 100 * highRiskCount cs)%nat) ∧
    ((15 * length cs < 100 * highRiskCount cs)%nat →
     ∃ later : list Recommendation.t,
       recommendations
       = {| Recommendation.type := "risk_management";
            Recommendation.priority := critical;
            Recommendation.message :=
              Number_toString (JS.of_nat (highRiskCount cs)) +:+
              " customers (" +:+
              Number_toFixed
                (JS.of_nat (highRiskCount cs) / JS.of_nat (length cs) * Fin 100) 1%nat +:+
              "%) are high-risk. Implement stricter monitoring." |} :: later ∧
       hasRiskManagement later = false) ∧
    (length cs = 100%nat →
     (hasRiskManagement recommendations = true ↔ (16 ≤ highRiskCount cs)%nat)).
Proof.
  destruct (generateRecommendations_shape Number_toString Number_toFixed cs segments)
    as (later & Hrun & Hlater).
  pose proof (high_risk_threshold (highRiskCount cs) (length cs)) as Hrule.
  eexists. split; [exact Hrun|].
  destruct (JS.of_nat (highRiskCount cs) >? JS.of_nat (length cs) * Fin 0.15) eqn:Hfires.
  - assert (Hlt : (15 * length cs < 100 * highRiskCount cs)%nat) by (apply Hrule; reflexivity).
    split; [|split].
    + split; [intros _; exact Hlt | reflexivity].
    + intros _. exists later. split; [reflexivity | assumption].
    + intros Hpop. split; [intros _; lia | reflexivity].
  - assert (Hge : ¬ (15 * length cs < 100 * highRiskCount cs)%nat).
    { intros H%Hrule. discriminate H. }
    cbn [app]. split; [|split].
    + split; [rewrite Hlater; discriminate | intros H; contradiction].
    + intros H. contradiction.
    + intros Hpop. split; [rewrite Hlater; discriminate | intros H; lia].
Qed.

Lemma generateRecommendations_risk_management_witness :
  (∃ recommendations : list Recommendation.t,
     result (generateRecommendations (λ _, "16") (λ _ _, "16.0") (portfolio 16 84) [])
     = Some recommendations ∧
     hasRiskManagement recommendations = true) ∧
  (∃ recommendations : list Recommendation.t,
     result (generateRecommendations (λ _, "15") (λ _ _, "15.0") (portfolio 15 85) [])
     = Some recommendations ∧
     hasRiskManagement recommendations = false).
Proof.
  split.
  - destruct (generateRecommendations_risk_management
                (λ _, "16") (λ _ _, "16.0") (portfolio 16 84) [])
      as (recommendations & Hrun & _ & _ & Hhundred).
    exists recommendations. split; [exact Hrun|].
    apply Hhundred; [reflexivity | vm_compute; lia].
  - destruct (generateRecommendations_risk_management
                (λ _, "15") (λ _ _, "15.0") (portfolio 15 85) [])
      as (recommendations & Hrun & _ & _ & Hhundred).
    exists recommendations. split; [exact Hrun|].
    apply not_true_is_false. intros E.
    apply Hhundred in E; [|reflexivity]. vm_compute in E. lia.
Defined.

(** ** Segment analysis *)

Lemma assignCustomerSegment_cases (c : Customer) :
  assignCustomerSegment c = "Premium" ∨ assignCustomerSegment c = "Gold" ∨
  assignCustomerSegment c = "Silver" ∨ assignCustomerSegment c = "Basic".
Proof.
  unfold assignCustomerSegment.
  destruct (_ && _); [tauto|]. destruct (_ && _); [tauto|].
  destruct (_ && _); tauto.
Qed.

(** The inner loop pushes the customer on the bucket that segment assignment
    names. *)
Lemma place_first_match (c : Customer) (b1 b2 b3 b4 : list Customer) :
  place c (fourBuckets b1 b2 b3 b4)
  = fourBuckets (b1 ++ membersOf "Premium" [c]) (b2 ++ membersOf "Gold" [c])
                (b3 ++ membersOf "Silver" [c]) (b4 ++ membersOf "Basic" [c]).
Proof.
  unfold fourBuckets, membersOf, assignCustomerSegment.
  cbn [place Bucket.criteria Bucket.name Bucket.customers List.filter].
  destruct (_ && _); [cbn; rewrite ?app_nil_r; reflexivity|].
  destruct (_ && _); [cbn; rewrite ?app_nil_r; reflexivity|].
  destruct (_ && _); cbn; rewrite ?app_nil_r; reflexivity.
Qed.

Lemma membersOf_cons (segmentName : string) (c : Customer) (cs : list Customer) :
  membersOf segmentName (c :: cs) = membersOf segmentName [c] ++ membersOf segmentName cs.
Proof.
  unfold membersOf. cbn [List.filter].
  destruct (String.eqb _ _); reflexivity.
Qed.

Lemma fold_place (cs : list Customer) (b1 b2 b3 b4 : list Customer) :
  fold_left (λ segments customer, place customer segments) cs (fourBuckets b1 b2 b3 b4)
  = fourBuckets (b1 ++ membersOf "Premium" cs) (b2 ++ membersOf "Gold" cs)
                (b3 ++ membersOf "Silver" cs) (b4 ++ membersOf "Basic" cs).
Proof.
  revert b1 b2 b3 b4. induction cs as [|c cs IH]; intros b1 b2 b3 b4.
  - cbn [fold_left membersOf List.filter]. rewrite !app_nil_r. reflexivity.
  - cbn [fold_left]. rewrite place_first_match, IH.
    rewrite !(membersOf_cons _ c cs), !app_assoc. reflexivity.
Qed.

Lemma gt_zero_of_nat (k : nat) : (JS.of_nat k >? Fin 0) = negb (Nat.eqb k 0).
Proof.
  destruct k as [|k]; [reflexivity|].
  cbn [Nat.eqb negb]. unfold JS.gt, JS.of_nat. apply lt_Fin_true.
  change 0 with (inject_Z 0). rewrite <- Zlt_Qlt. lia.
Qed.

(** Each customer is in the bucket of its segment, and in that one only. *)
Lemma clusterCustomers_buckets (cs : list Customer) : clusterCustomers cs = buckets cs.
Proof.
  unfold clusterCustomers, buckets. cbv zeta.
  change [Bucket.mk "Premium" [] _; _; _; _] with (fourBuckets [] [] [] []).
  rewrite fold_place. cbn [app].
  apply filter_ext. intros b. apply gt_zero_of_nat.
Qed.

Lemma membersOf_lengths (cs : list Customer) :
  (length (membersOf "Premium" cs) + length (membersOf "Gold" cs)
   + length (membersOf "Silver" cs) + length (membersOf "Basic" cs))%nat
  = length cs.
Proof.
  induction cs as [|c cs IH]; [reflexivity|].
  rewrite !(membersOf_cons _ c cs), !length_app. cbn [length]. rewrite <- IH.
  unfold membersOf at 1 3 5 7. cbn [List.filter].
  destruct (assignCustomerSegment_cases c) as [H|[H|[H|H]]]; rewrite H; cbn; lia.
Qed.

Lemma list_sum_cons (x : nat) (l : list nat) : list_sum (x :: l) = (x + list_sum l)%nat.
Proof. reflexivity. Qed.

Lemma sum_nonempty (L : list Bucket.t) :
  list_sum (map (λ b, length (Bucket.customers b))
              (List.filter (λ b, negb (Nat.eqb (length (Bucket.customers b)) 0)) L))
  = list_sum (map (λ b, length (Bucket.customers b)) L).
Proof.
  induction L as [|b L IH]; [reflexivity|]. cbn [List.filter].
  destruct (Nat.eqb_spec (length (Bucket.customers b)) 0) as [E|E];
    cbn [negb]; rewrite ?map_cons, ?list_sum_cons, IH; lia.
Qed.

Lemma buckets_lengths (cs : list Customer) :
  list_sum (map (λ b, length (Bucket.customers b)) (buckets cs)) = length cs.
Proof.
  unfold buckets. rewrite sum_nonempty. unfold fourBuckets.
  rewrite !map_cons, !list_sum_cons. cbn [map Bucket.customers list_sum fold_right].
  rewrite <- (membersOf_lengths cs). lia.
Qed.

(** The sum of the shares of the buckets is the share of their members. *)
Lemma total_shares (n : nat) (L : list Bucket.t) (a : Q) :
  n ≠ 0%nat →
  ∃ q : Q,
    fold_left JS.add
      (map (λ b, JS.of_nat (length (Bucket.customers b)) / JS.of_nat n) L) (Fin a)
    = Fin q ∧
    q == a + inject_Z (Z.of_nat (list_sum (map (λ b, length (Bucket.customers b)) L)))
             / inject_Z (Z.of_nat n).
Proof.
  intros Hn.
  assert (Hnz : ¬ inject_Z (Z.of_nat n) == 0).
  { change 0 with (inject_Z 0). rewrite inject_Z_injective. lia. }
  assert (Hdiv : Qeq_bool (inject_Z (Z.of_nat n)) 0 = false).
  { destruct (Qeq_bool _ 0) eqn:E; [|reflexivity]. apply Qeq_bool_eq in E. contradiction. }
  revert a. induction L as [|b L IH]; intros a.
  - exists a. split; [reflexivity|]. cbn [map list_sum fold_right].
    change (inject_Z (Z.of_nat 0)) with 0. field. exact Hnz.
  - rewrite !map_cons, list_sum_cons. cbn [fold_left].
    replace (JS.of_nat (length (Bucket.customers b)) / JS.of_nat n)
      with (Fin (inject_Z (Z.of_nat (length (Bucket.customers b)))
                 / inject_Z (Z.of_nat n)))
      by (symmetry; apply div_Fin, Hdiv).
    change (Fin a + Fin ?x) with (Fin (a + x)).
    destruct (IH (a + inject_Z (Z.of_nat (length (Bucket.customers b)))
                     / inject_Z (Z.of_nat n))%Q) as (q & Hq & Hsum).
    exists q. split; [exact Hq|]. rewrite Hsum.
    rewrite Nat2Z.inj_add, inject_Z_plus. field. exact Hnz.
Qed.

Lemma percentages_of_entries (n : nat) (bs : list Bucket.t) (segs : list SegmentAnalysis.t) :
  Forall2 (describes n) bs segs →
  mapM SegmentAnalysis.percentage segs
  = Some (map (λ b, JS.of_nat (length (Bucket.customers b)) / JS.of_nat n) bs).
Proof.
  induction 1 as [|b s bs segs (_ & _ & Hp) _ IH]; [reflexivity|].
  cbn [mapM map]. rewrite Hp. cbn [mbind option_bind]. rewrite IH. reflexivity.
Qed.

Lemma calculateGrowthRate_returns (Date_now : Z) (Date_parse : string → option Z)
    (cs : list Customer) :
  is_Some (result (calculateGrowthRate Date_now Date_parse cs)).
Proof.
  unfold calculateGrowthRate. cbv zeta. destruct (_ === Fin 0); eexists; reflexivity.
Qed.

Lemma performSegmentAnalysis_entries (Date_now : Z) (Date_parse : string → option Z)
    (cs : list Customer) :
  ∃ segs : list SegmentAnalysis.t,
    result (performSegmentAnalysis Date_now Date_parse cs) = Some segs ∧
    Forall2 (describes (length cs)) (buckets cs) segs.
Proof.
  unfold performSegmentAnalysis. cbv zeta. rewrite clusterCustomers_buckets.
  apply mapM_result. intros b. cbn beta.
  destruct (calculateGrowthRate_returns Date_now Date_parse (Bucket.customers b))
    as [g Hg].
  erewrite bind_result_Some by apply calculateAverage_result.
  erewrite bind_result_Some by apply calculateAverage_result.
  erewrite bind_result_Some by exact Hg.
  eexists. split; [reflexivity|]. repeat split.
Qed.

(** C8.  For every non-empty customer list, segment analysis returns one
    entry for each non-empty bucket; the buckets hold each customer once, in
    the bucket of the first predicate the customer meets, Basic taking the
    rest; the percentage of an entry is the number of its members divided by
    the number of customers; and the percentages sum to 1. *)
Theorem performSegmentAnalysis_percentages (Date_now : Z)
    (Date_parse : string → option Z) (cs : list Customer) :
  cs ≠ [] →
  ∃ (segs : list SegmentAnalysis.t) (percentages : list num),
    result (performSegmentAnalysis Date_now Date_parse cs) = Some segs ∧
    Forall2 (describes (length cs)) (buckets cs) segs ∧
    list_sum (map (λ b, length (Bucket.customers b)) (buckets cs)) = length cs ∧
    mapM SegmentAnalysis.percentage segs = Some percentages ∧
    ∃ q : Q, total percentages = Fin q ∧ q == 1.
Proof.
  intros Hcs.
  assert (Hn : length cs ≠ 0%nat) by (destruct cs; [contradiction | discriminate]).
  destruct (performSegmentAnalysis_entries Date_now Date_parse cs) as (segs & Hrun & Hsegs).
  exists segs. eexists. split; [exact Hrun|]. split; [exact Hsegs|].
  split; [apply buckets_lengths|].
  split; [apply (percentages_of_entries _ _ _ Hsegs)|].
  destruct (total_shares (length cs) (buckets cs) 0 Hn) as (q & Hq & Hsum).
  exists q. split; [exact Hq|]. rewrite Hsum, buckets_lengths. field.
  change 0 with (inject_Z 0). rewrite inject_Z_injective. lia.
Qed.

Lemma performSegmentAnalysis_percentages_witness :
  ∃ (segs : list SegmentAnalysis.t) (percentages : list num),
    result (performSegmentAnalysis 0%Z (λ _, None) (portfolio 1 1)) = Some segs ∧
    Forall2 (describes (length (portfolio 1 1))) (buckets (portfolio 1 1)) segs ∧
    list_sum (map (λ b, length (Bucket.customers b)) (buckets (portfolio 1 1)))
    = length (portfolio 1 1) ∧
    mapM SegmentAnalysis.percentage segs = Some percentages ∧
    ∃ q : Q, total percentages = Fin q ∧ q == 1.
Proof.
  apply (performSegmentAnalysis_percentages 0%Z (λ _, None) (portfolio 1 1)).
  discriminate.
Defined.

(** ** Further properties of the scoring *)

Lemma leq_Fin p q : p <= q → leq (Fin p) (Fin q).
Proof. intros H. exists p, q. auto. Qed.

Lemma leq_add a b c d : leq a b → leq c d → leq (a + c) (b + d).
Proof.
  intros (p & q & -> & -> & H) (r & t & -> & -> & H').
  apply leq_Fin. lra.
Qed.

Lemma leq_mul_const a b k : leq a b → 0 <= k → leq (a * Fin k) (b * Fin k).
Proof.
  intros (p & q & -> & -> & H) Hk. apply leq_Fin.
  apply Qmult_le_compat_r; assumption.
Qed.

Lemma Qdiv_le_compat (p q k : Q) : 0 < k → p <= q → p / k <= q / k.
Proof.
  intros Hk H. unfold Qdiv. apply Qmult_le_compat_r; [assumption|].
  apply Qinv_le_0_compat. lra.
Qed.

Lemma leq_max_zero a b : leq a b → leq (Math_max (Fin 0) a) (Math_max (Fin 0) b).
Proof.
  intros (p & q & -> & -> & H). unfold Math_max.
  destruct (JS.lt (Fin 0) (Fin p)) eqn:Ep; destruct (JS.lt (Fin 0) (Fin q)) eqn:Eq;
    rewrite ?lt_Fin_true, ?lt_Fin_false in *; apply leq_Fin; lra.
Qed.

Lemma leq_min_const k a b : leq a b → leq (Math_min (Fin k) a) (Math_min (Fin k) b).
Proof.
  intros (p & q & -> & -> & H). unfold Math_min.
  destruct (JS.lt (Fin p) (Fin k)) eqn:Ep; destruct (JS.lt (Fin q) (Fin k)) eqn:Eq;
    rewrite ?lt_Fin_true, ?lt_Fin_false in *; apply leq_Fin; lra.
Qed.

Lemma leq_round a b : leq a b → leq (Math_round a) (Math_round b).
Proof.
  intros (p & q & -> & -> & H). rewrite !Math_round_Fin. apply leq_Fin.
  rewrite <- Zle_Qle. apply Qfloor_resp_le. lra.
Qed.

(** A term [max(0, (top - x) / k)] does not grow with [x]. *)
Lemma leq_term (top k : Q) (x y : num) :
  0 < k → leq x y →
  leq (Math_max (Fin 0) ((Fin top - y) / Fin k))
      (Math_max (Fin 0) ((Fin top - x) / Fin k)).
Proof.
  intros Hk (p & q & -> & -> & H). apply leq_max_zero.
  assert (Hz : Qeq_bool k 0 = false).
  { destruct (Qeq_bool k 0) eqn:E; [|reflexivity]. apply Qeq_bool_eq in E. lra. }
  rewrite !sub_Fin, !(div_Fin _ _ Hz). apply leq_Fin, Qdiv_le_compat; lra.
Qed.

Lemma leq_utilizationRisk (x y : num) :
  leq x y →
  leq (if x >? Fin 30 then (x - Fin 30) / Fin 70 else Fin 0)
      (if y >? Fin 30 then (y - Fin 30) / Fin 70 else Fin 0).
Proof.
  intros (p & q & -> & -> & H). unfold JS.gt.
  destruct (Fin 30 <? Fin p) eqn:Ep; destruct (Fin 30 <? Fin q) eqn:Eq;
    rewrite ?lt_Fin_true, ?lt_Fin_false in *;
    rewrite ?sub_Fin, ?div_Fin by reflexivity; apply leq_Fin;
    try apply Qdiv_le_compat; try apply Qle_shift_div_l; lra.
Qed.

Lemma leq_fraudRisk (x y : num) :
  leq x y →
  leq (Math_min (Fin 1) (x / Fin 5)) (Math_min (Fin 1) (y / Fin 5)).
Proof.
  intros (p & q & -> & -> & H). apply leq_min_const.
  rewrite !div_Fin by reflexivity. apply leq_Fin, Qdiv_le_compat; lra.
Qed.

Lemma le_leq (x y : num) :
  isFinite x = true → isFinite y = true → (x <=? y) = true → leq x y.
Proof.
  intros [p ->]%isFinite_Fin [q ->]%isFinite_Fin H%le_Fin. apply leq_Fin, H.
Qed.

Lemma leq_le (x y : num) : leq x y → (x <=? y) = true.
Proof. intros (p & q & -> & -> & H). apply le_Fin, H. Qed.

Lemma finiteScoring_elim (f : RiskFactors.t) :
  finiteScoring f = true →
  isFinite (RiskFactors.creditScore f) = true ∧
  isFinite (RiskFactors.paymentHistory f) = true ∧
  isFinite (RiskFactors.utilizationRate f) = true ∧
  isFinite (RiskFactors.income f) = true ∧
  isFinite (RiskFactors.accountAge f) = true ∧
  isFinite (RiskFactors.fraudAlerts f) = true.
Proof. unfold finiteScoring. cbn [forallb]. rewrite !andb_true_iff. tauto. Qed.

(** X1.  The score is monotone in every factor: of two profiles with finite
    factors, the one that is at least as good on every factor (credit score,
    payment history, income and account age not lower, utilization and
    fraud alerts not higher) never has the higher score. *)
Theorem computeWeightedRiskScore_monotone (g f : RiskFactors.t) :
  finiteScoring g = true →
  finiteScoring f = true →
  atLeastAsGood g f = true →
  (computeWeightedRiskScore g <=? computeWeightedRiskScore f) = true.
Proof.
  intros (Gcs & Gph & Gur & Gin & Gage & Gfa)%finiteScoring_elim
         (Fcs & Fph & Fur & Fin' & Fage & Ffa)%finiteScoring_elim Hgood.
  unfold atLeastAsGood in Hgood. rewrite !andb_true_iff in Hgood.
  destruct Hgood as (((((Hcs & Hph) & Hur) & Hin) & Hage) & Hfa).
  apply leq_le. unfold computeWeightedRiskScore. cbv zeta.
  apply leq_min_const, leq_round.
  repeat apply leq_add; try (apply leq_Fin; lra);
    apply leq_mul_const; try lra.
  - apply leq_term; [lra | apply le_leq; assumption].
  - apply leq_term; [lra | apply le_leq; assumption].
  - apply leq_utilizationRisk, le_leq; assumption.
  - apply leq_term; [lra | apply le_leq; assumption].
  - apply leq_term; [lra | apply le_leq; assumption].
  - apply leq_fraudRisk, le_leq; assumption.
Qed.

Lemma computeWeightedRiskScore_monotone_witness :
  (computeWeightedRiskScore (riskFactors customer_premium)
   <=? computeWeightedRiskScore (riskFactors customer_basic)) = true.
Proof.
  apply (computeWeightedRiskScore_monotone
           (riskFactors customer_premium) (riskFactors customer_basic));
    reflexivity.
Defined.

(** X2.  A profile with finite factors that is at or beyond every threshold
    (credit score from 850, payment history from 100, utilization up to 30,
    income from 500000, account age from 60) and whose number of fraud
    alerts is exactly 0 scores exactly 0, and its category is Low. *)
Theorem computeWeightedRiskScore_beyond_thresholds (f : RiskFactors.t) :
  finiteScoring f = true →
  beyondThresholds f = true →
  computeWeightedRiskScore f = Fin 0 ∧
  riskCategoryOf (computeWeightedRiskScore f) = Low.
Proof.
  intros (Hcs & Hph & Hur & Hin & Hage & Hfa)%finiteScoring_elim Hbeyond.
  unfold beyondThresholds in Hbeyond. rewrite !andb_true_iff in Hbeyond.
  destruct Hbeyond as (((((Bcs & Bph) & Bur) & Bin) & Bage) & Bfa).
  assert (Hterm : ∀ (top k : Q) (x : num),
            isFinite x = true → (Fin top <=? x) = true → Qeq_bool k 0 = false →
            0 < k → Math_max (Fin 0) ((Fin top - x) / Fin k) = Fin 0).
  { intros top k x [p ->]%isFinite_Fin Hp%le_Fin Hk Hpos.
    rewrite sub_Fin, (div_Fin _ _ Hk). unfold Math_max.
    destruct (JS.lt (Fin 0) (Fin ((top + - p) / k))) eqn:E; [|reflexivity].
    apply lt_Fin_true in E. exfalso.
    assert ((top + - p) / k <= 0).
    { apply Qle_shift_div_r; [assumption | lra]. }
    lra. }
  assert (Hscore : computeWeightedRiskScore f = Fin 0).
  { unfold computeWeightedRiskScore. cbv zeta.
    rewrite (Hterm 850 450), (Hterm 100 100), (Hterm 500000 500000), (Hterm 60 60)
      by (assumption || reflexivity || lra).
    apply isFinite_Fin in Hur as [u Hu]. apply isFinite_Fin in Hfa as [a Ha].
    rewrite Hu, Ha in *. apply le_Fin in Bur. cbn [JS.strictEq] in Bfa.
    apply Qeq_bool_eq in Bfa.
    replace (Fin u >? Fin 30) with false
      by (symmetry; apply lt_Fin_false; assumption).
    rewrite div_Fin by reflexivity. unfold Math_min at 2.
    replace (Fin (a / 5) <? Fin 1) with true
      by (symmetry; apply lt_Fin_true; apply Qlt_shift_div_r; lra).
    change (Fin 0 + Fin 0 * Fin 35 + Fin 0 * Fin 35 + Fin 0 * Fin 15
            + Fin 0 * Fin 10 + Fin 0 * Fin 3 + Fin (a / 5) * Fin 2)
      with (Fin (0 + 0 * 35 + 0 * 35 + 0 * 15 + 0 * 10 + 0 * 3 + a / 5 * 2)).
    rewrite Math_round_Fin.
    replace (Qfloor (0 + 0 * 35 + 0 * 35 + 0 * 15 + 0 * 10 + 0 * 3 + a / 5 * 2 + (1 # 2)))
      with 0%Z; [reflexivity|].
    symmetry. rewrite <- (Qfloor_comp (1 # 2)); [reflexivity|].
    rewrite Bfa. reflexivity. }
  rewrite Hscore. split; reflexivity.
Qed.

Lemma computeWeightedRiskScore_beyond_thresholds_witness :
  computeWeightedRiskScore (riskFactors (customerOf 900000 850 100 20 72 0 25 5000))
  = Fin 0 ∧
  riskCategoryOf
    (computeWeightedRiskScore (riskFactors (customerOf 900000 850 100 20 72 0 25 5000)))
  = Low.
Proof.
  apply (computeWeightedRiskScore_beyond_thresholds
           (riskFactors (customerOf 900000 850 100 20 72 0 25 5000)));
    reflexivity.
Defined.

Lemma add_NaN_r (a : num) : a + NaN = NaN.
Proof. destruct a; reflexivity. Qed.

Lemma mul_NaN_l (a : num) : NaN * a = NaN.
Proof. reflexivity. Qed.

Lemma computeWeightedRiskScore_NaN (f : RiskFactors.t) :
  RiskFactors.creditScore f = NaN ∨ RiskFactors.paymentHistory f = NaN ∨
  RiskFactors.income f = NaN ∨ RiskFactors.accountAge f = NaN ∨
  RiskFactors.fraudAlerts f = NaN →
  computeWeightedRiskScore f = NaN.
Proof.
  assert (Hmax : ∀ a k, Math_max (Fin 0) ((a - NaN) / k) = NaN).
  { intros a k. unfold JS.sub. cbn [JS.neg]. rewrite add_NaN_r. reflexivity. }
  unfold computeWeightedRiskScore. cbv zeta.
  intros [H|[H|[H|[H|H]]]]; rewrite H; rewrite ?Hmax;
    cbn [JS.div Math_min]; rewrite ?mul_NaN_l, ?add_NaN_r; reflexivity.
Qed.

(** X3.  A missing number spreads: when the credit score, the payment
    history, the income, the account age or the number of fraud alerts of a
    record is NaN, the pipeline gives it the score NaN, the category High
    and the segment Basic.  A NaN utilization rate does not spread: it is
    scored as a utilization of 0. *)
Theorem derive_NaN (c : Customer) :
  (creditScore c = NaN ∨ paymentHistory c = NaN ∨ income c = NaN ∨
   accountAge c = NaN ∨ fraudAlerts c = NaN →
   riskScore (derive c) = NaN ∧ riskCategory (derive c) = High ∧
   segment (derive c) = "Basic") ∧
  (utilizationRate c = NaN →
   calculateRiskScore c
   = computeWeightedRiskScore (withUtilizationRate (Fin 0) (riskFactors c))).
Proof.
  split.
  - intros H.
    assert (Hscore : calculateRiskScore c = NaN).
    { apply computeWeightedRiskScore_NaN. exact H. }
    destruct (derive_fields c) as (_ & Hs & Hc & Hseg).
    rewrite Hs, Hc, Hseg, Hscore. repeat split.
    unfold assignCustomerSegment. cbn [riskScore set_riskScore JS.lt].
    rewrite !andb_false_r. reflexivity.
  - intros H. unfold calculateRiskScore, computeWeightedRiskScore. cbv zeta.
    cbn [riskFactors withUtilizationRate RiskFactors.creditScore
         RiskFactors.paymentHistory RiskFactors.utilizationRate
         RiskFactors.income RiskFactors.accountAge RiskFactors.fraudAlerts].
    rewrite H. reflexivity.
Qed.

Lemma derive_NaN_witness :
  riskScore (derive customer_unknown_history) = NaN ∧
  riskCategory (derive customer_unknown_history) = High ∧
  segment (derive customer_unknown_history) = "Basic".
Proof.
  apply (proj1 (derive_NaN customer_unknown_history)).
  right. left. reflexivity.
Defined.

(** ** Growth rate and averages *)




Lemma get_finite (c : Customer) (field : CustomerKey) :
  finiteFields c = true →
  isFinite (match get c field with VNum v => v | VStr _ => Fin 0 end) = true.
Proof.
  unfold finiteFields. cbn [forallb]. rewrite !andb_true_iff. intros H.
  destruct field; cbn [get]; try reflexivity; tauto.
Qed.

Lemma fieldSum_finite (cs : list Customer) (field : CustomerKey) :
  Forall (λ c, finiteFields c = true) cs → isFinite (fieldSum cs field) = true.
Proof.
  unfold fieldSum. intros Hcs.
  assert (H : ∀ acc : num, isFinite acc = true →
            isFinite (fold_left (λ acc customer,
              acc + match get customer field with VNum v => v | VStr _ => Fin 0 end)
              cs acc) = true); [|apply H; reflexivity].
  induction cs as [|c cs IH]; intros acc Hacc; [exact Hacc|].
  apply Forall_cons in Hcs as [Hc Hcs]. cbn [fold_left]. apply IH; [exact Hcs|].
  apply isFinite_add; [exact Hacc | apply get_finite, Hc].
Qed.

Lemma of_nat_nonzero (n : nat) :
  n ≠ 0%nat → Qeq_bool (inject_Z (Z.of_nat n)) 0 = false.
Proof.
  intros Hn. destruct (Qeq_bool _ 0) eqn:E; [|reflexivity].
  apply Qeq_bool_eq in E. change 0 with (inject_Z 0) in E.
  rewrite inject_Z_injective in E. lia.
Qed.

Lemma fieldSum_stringKey (cs : list Customer) (field : CustomerKey) :
  stringKey field = true → fieldSum cs field = Fin 0.
Proof.
  intros Hkey. unfold fieldSum.
  assert (H : ∀ c, match get c field with VNum v => v | VStr _ => Fin 0 end = Fin 0)
    by (intros c; destruct field; try discriminate Hkey; reflexivity).
  induction cs as [|c cs IH]; [reflexivity|]. cbn [fold_left]. rewrite H. exact IH.
Qed.

Lemma Math_round_zero (q : Q) : q == 0 → Math_round (Fin q) = Fin 0.
Proof.
  intros Hq. rewrite Math_round_Fin.
  assert (E : q + (1 # 2) == 1 # 2) by (rewrite Hq; reflexivity).
  rewrite (Qfloor_comp _ _ E). reflexivity.
Qed.

(** X5.  For records with finite numeric fields, [calculateAverage] returns
    NaN exactly when the list is empty, where it evaluates 0 / 0: it has no
    guard for the empty list.  On a non-empty list its one division is by
    the number of customers, which is not zero; and over a key whose values
    are strings every value counts as 0, so that the average is 0, whatever
    the records. *)
Theorem calculateAverage_edges (field : CustomerKey) (cs : list Customer) :
  calculateAverage [] field = Run (Some NaN) [Division (Fin 0) (JS.of_nat 0)] ∧
  (Forall (λ c, finiteFields c = true) cs →
   (result (calculateAverage cs field) = Some NaN ↔ cs = [])) ∧
  (cs ≠ [] →
   Forall (λ d, byZero d = false) (divisions (calculateAverage cs field))) ∧
  (cs ≠ [] → stringKey field = true →
   result (calculateAverage cs field) = Some (Fin 0)).
Proof.
  split; [reflexivity|].
  assert (Hlen : cs ≠ [] → Qeq_bool (inject_Z (Z.of_nat (length cs))) 0 = false).
  { intros Hcs. apply of_nat_nonzero. destruct cs; [contradiction | discriminate]. }
  rewrite calculateAverage_run. cbn [result divisions]. split; [|split].
  - intros Hfin. split; [|intros ->; reflexivity].
    intros Hnan. destruct cs as [|c cs']; [reflexivity|]. exfalso.
    revert Hnan. unfold mean.
    destruct (proj1 (isFinite_Fin _) (fieldSum_finite _ field Hfin)) as [s ->].
    unfold JS.of_nat. rewrite (div_Fin _ _ (Hlen ltac:(discriminate))), Math_round_Fin.
    discriminate.
  - intros Hcs. apply Forall_cons. split; [|apply Forall_nil; exact I].
    unfold byZero. cbn [divisor JS.of_nat JS.strictEq]. apply Hlen, Hcs.
  - intros Hcs Hkey. unfold mean. rewrite (fieldSum_stringKey _ _ Hkey).
    unfold JS.of_nat. rewrite (div_Fin _ _ (Hlen Hcs)). f_equal.
    apply Math_round_zero. unfold Qdiv. apply Qmult_0_l.
Qed.

Lemma calculateAverage_edges_witness :
  (result (calculateAverage [customer_premium; customer_basic] K_income) = Some NaN
   ↔ [customer_premium; customer_basic] = []) ∧
  result (calculateAverage [customer_premium; customer_basic] K_income)
    = Some (Fin 375000) ∧
  Forall (λ d, byZero d = false)
    (divisions (calculateAverage [customer_premium; customer_basic] K_income)) ∧
  result (calculateAverage [customer_premium; customer_basic] K_city) = Some (Fin 0).
Proof.
  destruct (calculateAverage_edges K_income [customer_premium; customer_basic])
    as (_ & Hnan & Hdiv & _).
  destruct (calculateAverage_edges K_city [customer_premium; customer_basic])
    as (_ & _ & _ & Hzero).
  split; [|split; [|split]].
  - apply Hnan.
    repeat (apply Forall_cons; split; [reflexivity|]). apply Forall_nil. exact I.
  - reflexivity.
  - apply Hdiv. discriminate.
  - apply Hzero; [discriminate | reflexivity].
Defined.

(** ** The anomaly score on every input *)

Lemma notNegative_abs (a : num) : notNegative (Math_abs a).
Proof.
  destruct a as [x| | |]; unfold notNegative; auto.
  right. right. apply nonneg_abs. reflexivity.
Qed.

Lemma notNegative_mul_const (a : num) (k : Q) :
  Qeq_bool k 0 = false → Qle_bool 0 k = true →
  notNegative a → notNegative (a * Fin k).
Proof.
  intros Hk Hpos [->|[->|H]]; unfold notNegative.
  - left. reflexivity.
  - right. left. cbn [JS.mul]. rewrite Hk, Hpos. reflexivity.
  - right. right. apply nonneg_mul_const; [assumption | apply Qle_bool_iff, Hpos].
Qed.

Lemma notNegative_add (a b : num) : notNegative a → notNegative b → notNegative (a + b).
Proof.
  intros [->|[->|(p & -> & Hp)]] [->|[->|(q & -> & Hq)]]; unfold notNegative;
    first [ left; reflexivity
          | right; left; reflexivity
          | right; right; exists (p + q)%Q; split; [reflexivity | lra] ].
Qed.

Lemma notNegative_div_const (a : num) (k : Q) :
  Qeq_bool k 0 = false → Qle_bool 0 k = true →
  notNegative a → notNegative (a / Fin k).
Proof.
  intros Hk Hpos [->|[->|H]]; unfold notNegative.
  - left. reflexivity.
  - right. left. cbn [JS.div]. rewrite Hpos. reflexivity.
  - right. right. apply nonneg_div_const; [assumption|].
    apply Qle_bool_iff in Hpos. apply Qeq_bool_neq in Hk.
    destruct (Qlt_le_dec 0 k) as [Hlt|Hle]; [assumption|].
    exfalso. apply Hk. lra.
Qed.

Lemma min_one_notNegative (a : num) :
  notNegative a → Math_min (Fin 1) a = NaN ∨ inUnitInterval (Math_min (Fin 1) a).
Proof.
  intros [->|[->|H]].
  - left. reflexivity.
  - right. exists 1. split; [reflexivity | lra].
  - right. apply min_one_unit, H.
Qed.

(** X6.  On every customer and every population the anomaly score is NaN
    or a number between 0 and 1, never an infinity and never negative; a
    customer is flagged only with a score above 0.7 and at most 1, so that
    a customer whose score is NaN is never flagged. *)
Theorem calculateAnomalyScore_NaN_or_unit (c : Customer) (cs : list Customer) :
  ∃ anomalyScore : num,
    result (calculateAnomalyScore c cs) = Some anomalyScore ∧
    (anomalyScore = NaN ∨ inUnitInterval anomalyScore) ∧
    (exceedsThreshold c cs = true ↔
     ∃ q : Q, anomalyScore = Fin q ∧ 7 # 10 < q ∧ q <= 1).
Proof.
  eexists. split; [apply calculateAnomalyScore_result|].
  match goal with |- (?s = NaN ∨ _) ∧ _ => set (score := s) end.
  assert (Hscore : score = NaN ∨ inUnitInterval score).
  { subst score. apply min_one_notNegative.
    apply notNegative_div_const; [reflexivity | reflexivity|].
    repeat apply notNegative_add;
      (apply notNegative_mul_const; [reflexivity | reflexivity|]);
      apply notNegative_abs. }
  split; [exact Hscore|].
  unfold exceedsThreshold. rewrite calculateAnomalyScore_result. fold score.
  destruct Hscore as [->|(q & -> & Hq)].
  - split; [discriminate|]. intros (q & Hq & _). discriminate Hq.
  - unfold JS.gt. rewrite lt_Fin_true. split.
    + intros H. exists q. split; [reflexivity|]. split; [exact H | apply Hq].
    + intros (q' & [= <-] & H & _). exact H.
Qed.

Lemma calculateAnomalyScore_NaN_or_unit_witness :
  exceedsThreshold customer_idle [customer_idle] = false.
Proof.
  destruct (calculateAnomalyScore_NaN_or_unit customer_idle [customer_idle])
    as (anomalyScore & Hrun & _ & Hflag).
  apply not_true_is_false. intros (q & -> & _)%Hflag. discriminate Hrun.
Defined.

(** ** Clustering *)

Lemma filter_sublist {A : Type} (f : A → bool) (l : list A) :
  sublist (List.filter f l) l.
Proof.
  induction l as [|x l IH]; [constructor|]. cbn [List.filter].
  destruct (f x); [apply sublist_skip | apply sublist_cons]; exact IH.
Qed.

Lemma concat_nonempty (L : list Bucket.t) :
  concat (map Bucket.customers
            (List.filter (λ b, negb (Nat.eqb (length (Bucket.customers b)) 0)) L))
  = concat (map Bucket.customers L).
Proof.
  induction L as [|b L IH]; [reflexivity|]. cbn [List.filter map concat].
  destruct (Bucket.customers b) eqn:E; cbn [length Nat.eqb negb map concat];
    rewrite ?E, IH; reflexivity.
Qed.

Lemma membersOf_permutation (cs : list Customer) :
  membersOf "Premium" cs ++ membersOf "Gold" cs ++ membersOf "Silver" cs
  ++ membersOf "Basic" cs ≡ₚ cs.
Proof.
  induction cs as [|c cs IH]; [reflexivity|].
  rewrite !(membersOf_cons _ c cs). unfold membersOf at 1 3 5 7.
  cbn [List.filter].
  destruct (assignCustomerSegment_cases c) as [H|[H|[H|H]]]; rewrite H;
    cbn [String.eqb Ascii.eqb Bool.eqb andb app];
    rewrite <- ?Permutation_middle; constructor; exact IH.
Qed.

Lemma clusterCustomers_members (cs : list Customer) :
  Forall (λ b, Bucket.customers b ≠ [] ∧
               Bucket.customers b = membersOf (Bucket.name b) cs)
    (clusterCustomers cs).
Proof.
  rewrite clusterCustomers_buckets. unfold buckets.
  apply Forall_forall. intros b [Hb Hne]%list_elem_of_In%filter_In. split.
  - intros E. rewrite E in Hne. discriminate Hne.
  - unfold fourBuckets in Hb. cbn [In] in Hb.
    destruct Hb as [<-|[<-|[<-|[<-|[]]]]]; reflexivity.
Qed.

(** X7.  [clusterCustomers] partitions the customers: its buckets keep the
    order Premium, Gold, Silver, Basic, none is empty, each holds, in their
    order, exactly the customers to whom [assignCustomerSegment] gives its
    name, and together they hold every customer once. *)
Theorem clusterCustomers_partition (cs : list Customer) :
  sublist (map Bucket.name (clusterCustomers cs)) ["Premium"; "Gold"; "Silver"; "Basic"] ∧
  Forall (λ b, Bucket.customers b ≠ [] ∧
               Bucket.customers b = membersOf (Bucket.name b) cs)
    (clusterCustomers cs) ∧
  concat (map Bucket.customers (clusterCustomers cs)) ≡ₚ cs.
Proof.
  split; [|split; [apply clusterCustomers_members|]];
    rewrite clusterCustomers_buckets; unfold buckets.
  - change ["Premium"; "Gold"; "Silver"; "Basic"]
      with (map Bucket.name
              (fourBuckets (membersOf "Premium" cs) (membersOf "Gold" cs)
                           (membersOf "Silver" cs) (membersOf "Basic" cs))).
    apply (fmap_sublist Bucket.name), filter_sublist.
  - rewrite concat_nonempty. unfold fourBuckets.
    cbn [map concat Bucket.customers]. rewrite app_nil_r.
    apply membersOf_permutation.
Qed.

Lemma assignCustomerSegment_derive (c : Customer) :
  assignCustomerSegment (derive c) = segment (derive c).
Proof. destruct c. reflexivity. Qed.

(** X8.  After the pipeline the clustering agrees with the stored field:
    for customers that [processNewCustomerData] has processed, each bucket
    of [clusterCustomers] holds exactly the customers whose [segment] is the
    name of the bucket. *)
Theorem clusterCustomers_after_pipeline (cs : list Customer) :
  Forall (λ b, Bucket.customers b
               = List.filter (λ c, String.eqb (segment c) (Bucket.name b))
                   (map derive cs))
    (clusterCustomers (map derive cs)).
Proof.
  eapply Forall_impl; [apply clusterCustomers_members|]. intros b [_ ->]. cbn beta.
  unfold membersOf. apply filter_ext_in. intros c [c0 [<- _]]%in_map_iff.
  rewrite assignCustomerSegment_derive. reflexivity.
Qed.

Lemma lt_const_weaken (s : num) (a b : Q) :
  (s <? Fin a) = true → a <= b → (s <? Fin b) = true.
Proof.
  destruct s as [q| | |]; try discriminate; [|reflexivity].
  rewrite !lt_Fin_true. intros. lra.
Qed.

(** X9.  The derived fields of a processed record are coherent: a Premium
    record has an income above 600000 and a stored score below 40, a Gold
    record a stored score below 60, and neither is of category High. *)
Theorem derive_coherent (c : Customer) :
  (segment (derive c) = "Premium" →
   (income (derive c) >? Fin 600000) = true ∧
   (riskScore (derive c) <? Fin 40) = true) ∧
  (segment (derive c) = "Gold" → (riskScore (derive c) <? Fin 60) = true) ∧
  (segment (derive c) = "Premium" ∨ segment (derive c) = "Gold" →
   riskCategory (derive c) ≠ High).
Proof.
  destruct (derive_fields c) as ((_ & _ & _ & Hincome & _) & Hs & Hc & Hseg).
  rewrite Hs, Hc, Hseg, Hincome. unfold assignCustomerSegment.
  cbn [income riskScore set_riskScore].
  set (s := calculateRiskScore c).
  assert (Hcat : ∀ a : Q, (s <? Fin a) = true → a <= 70 → riskCategoryOf s ≠ High).
  { intros a Ha Hle. unfold riskCategoryOf.
    destruct (s <? Fin 30); [discriminate|].
    rewrite (lt_const_weaken s a 70 Ha Hle). discriminate. }
  destruct (income c >? Fin 600000) eqn:E1, (s <? Fin 40) eqn:E2;
    cbn [andb];
    try (split; [intros _; split; reflexivity|];
         split; [discriminate|]; intros _; apply (Hcat 40); [exact E2 | lra]);
    destruct ((income c >? Fin 400000) && (s <? Fin 60)) eqn:E3;
    try (apply andb_prop in E3 as [_ E3];
         split; [discriminate|]; split; [intros _; exact E3|];
         intros _; apply (Hcat 60); [exact E3 | lra]);
    destruct ((income c >? Fin 250000) && (s <? Fin 80));
    (split; [discriminate|]; split; [discriminate|];
     intros [H|H]; discriminate H).
Qed.

Lemma derive_coherent_witness :
  (income (derive customer_premium) >? Fin 600000) = true ∧
  (riskScore (derive customer_premium) <? Fin 40) = true.
Proof.
  apply (proj1 (derive_coherent customer_premium)). reflexivity.
Defined.

(** ** The segment assignment of data/mockData.ts *)

(** The callback reads the names of the analysis only. *)
Lemma segmentFromAnalysis_names (segs : list SegmentAnalysis.t) (c : Customer) :
  segmentFromAnalysis segs c
  = match List.find (λ n,
            if String.eqb n "Premium" then meetsPremium c
            else if String.eqb n "Gold" then meetsGold c
            else if String.eqb n "Silver" then meetsSilver c
            else true) (map SegmentAnalysis.segment segs) with
    | Some n => if String.eqb n "" then "Basic" else n
    | None => "Basic"
    end.
Proof.
  unfold segmentFromAnalysis, meetsPremium, meetsGold, meetsSilver. cbv zeta.
  induction segs as [|s segs IH]; [reflexivity|]. cbn [map List.find].
  destruct (if String.eqb (SegmentAnalysis.segment s) "Premium" then _ else _);
    [reflexivity | exact IH].
Qed.

Lemma describes_names (n : nat) (bs : list Bucket.t) (segs : list SegmentAnalysis.t) :
  Forall2 (describes n) bs segs →
  map SegmentAnalysis.segment segs = map Bucket.name bs.
Proof.
  induction 1 as [|b s bs segs (Hname & _) _ IH]; [reflexivity|].
  cbn [map]. rewrite Hname, IH. reflexivity.
Qed.

Lemma membersOf_nonempty (segmentName : string) (c : Customer) (cs : list Customer) :
  c ∈ cs → assignCustomerSegment c = segmentName →
  Nat.eqb (length (membersOf segmentName cs)) 0 = false.
Proof.
  intros Hc Ha.
  assert (Hin : In c (membersOf segmentName cs)).
  { apply filter_In. split; [apply list_elem_of_In, Hc|].
    rewrite Ha. apply String.eqb_refl. }
  destruct (membersOf segmentName cs); [destruct Hin | reflexivity].
Qed.

Lemma assignCustomerSegment_criteria (c : Customer) :
  (assignCustomerSegment c = "Premium" ∧ meetsPremium c = true) ∨
  (assignCustomerSegment c = "Gold" ∧ meetsPremium c = false ∧ meetsGold c = true) ∨
  (assignCustomerSegment c = "Silver" ∧ meetsPremium c = false ∧
   meetsGold c = false ∧ meetsSilver c = true) ∨
  (assignCustomerSegment c = "Basic" ∧ meetsPremium c = false ∧
   meetsGold c = false ∧ meetsSilver c = false).
Proof.
  unfold assignCustomerSegment, meetsPremium, meetsGold, meetsSilver.
  destruct (_ && _); [tauto|]. destruct (_ && _); [tauto|].
  destruct (_ && _); tauto.
Qed.

(** X10.  The segment that data/mockData.ts assigns from the segment
    analysis of a portfolio is, for every customer of that portfolio, the
    segment that [assignCustomerSegment] gives: the buckets that the
    analysis dropped as empty are never the customer's. *)
Theorem segmentFromAnalysis_agrees (Date_now : Z) (Date_parse : string → option Z)
    (cs : list Customer) (segs : list SegmentAnalysis.t) (c : Customer) :
  c ∈ cs →
  result (performSegmentAnalysis Date_now Date_parse cs) = Some segs →
  segmentFromAnalysis segs c = assignCustomerSegment c.
Proof.
  intros Hc Hrun.
  destruct (performSegmentAnalysis_entries Date_now Date_parse cs)
    as (segs' & Hrun' & Hsegs).
  rewrite Hrun in Hrun'. injection Hrun' as <-.
  rewrite segmentFromAnalysis_names, (describes_names _ _ _ Hsegs).
  unfold buckets, fourBuckets.
  cbn [List.filter Bucket.customers].
  destruct (assignCustomerSegment_criteria c)
    as [(Ha & H1)|[(Ha & H1 & H2)|[(Ha & H1 & H2 & H3)|(Ha & H1 & H2 & H3)]]];
    rewrite Ha, ?H1, ?H2, ?H3;
    rewrite (membersOf_nonempty _ c cs Hc Ha);
    repeat match goal with
    | |- context [Nat.eqb (length (membersOf ?n cs)) 0] =>
        destruct (Nat.eqb (length (membersOf n cs)) 0)
    end;
    cbn [negb map List.find Bucket.name String.eqb Ascii.eqb Bool.eqb andb];
    rewrite ?H1, ?H2, ?H3; reflexivity.
Qed.

Lemma segmentFromAnalysis_agrees_witness :
  ∃ segs : list SegmentAnalysis.t,
    result (performSegmentAnalysis 0%Z (λ _, None) (portfolio 1 1)) = Some segs ∧
    segmentFromAnalysis segs (derive customer_premium) = "Premium".
Proof.
  eexists. split; [reflexivity|].
  change "Premium" with (assignCustomerSegment (derive customer_premium)) at 2.
  apply (segmentFromAnalysis_agrees 0%Z (λ _, None) (portfolio 1 1)).
  - apply list_elem_of_further, list_elem_of_here.
  - reflexivity.
Defined.

(** ** The three rules of the recommendations *)

Lemma low_utilization_threshold (l n : nat) :
  (JS.of_nat l >? JS.of_nat n * Fin 0.3) = true ↔ (3 * n < 10 * l)%nat.
Proof.
  unfold JS.gt, JS.of_nat. change (Fin ?a * Fin ?b) with (Fin (a * b)).
  rewrite lt_Fin_true.
  assert (E : inject_Z (Z.of_nat n) * 0.3 < inject_Z (Z.of_nat l)
              ↔ inject_Z (3 * Z.of_nat n) < inject_Z (10 * Z.of_nat l)).
  { rewrite !inject_Z_mult.
    change (inject_Z 3) with 3%Q. change (inject_Z 10) with 10%Q.
    split; intros; lra. }
  rewrite E, <- Zlt_Qlt. lia.
Qed.

Lemma bool_decide_of_iff (b : bool) (P : Prop) `{Decision P} :
  (b = true ↔ P) → b = bool_decide P.
Proof.
  intros HP. destruct b.
  - symmetry. apply bool_decide_eq_true, HP. reflexivity.
  - symmetry. apply bool_decide_eq_false. intros HP'%HP. discriminate.
Qed.

(** X11.  Each of the three rules of [generateRecommendations] appends at
    most one recommendation, in the fixed order risk_management (critical),
    growth_opportunity (high), engagement (medium): the first when more
    than 15% of the customers are of category High, the second when the
    first Premium entry of the segments has a growth rate above 15, the
    third when more than 30% of the customers have a utilization below 20;
    and the function never divides by zero. *)
Theorem generateRecommendations_rules
    (Number_toString : num → string) (Number_toFixed : num → nat → string)
    (cs : list Customer) (segments : list SegmentAnalysis.t) :
  ∃ recommendations : list Recommendation.t,
    result (generateRecommendations Number_toString Number_toFixed cs segments)
    = Some recommendations ∧
    map (λ r, (Recommendation.type r, Recommendation.priority r)) recommendations
    = (if bool_decide (15 * length cs < 100 * highRiskCount cs)%nat
       then [("risk_management", critical)] else [])
      ++ (if premiumGrowth segments then [("growth_opportunity", high)] else [])
      ++ (if bool_decide (3 * length cs < 10 * lowUtilizationCount cs)%nat
          then [("engagement", medium)] else []) ∧
    Forall (λ d, byZero d = false)
      (divisions (generateRecommendations Number_toString Number_toFixed cs segments)).
Proof.
  pose proof (bool_decide_of_iff _ _
                (high_risk_threshold (highRiskCount cs) (length cs))) as H1.
  pose proof (bool_decide_of_iff _ _
                (low_utilization_threshold (lowUtilizationCount cs) (length cs))) as H3.
  unfold generateRecommendations, premiumGrowth. cbv zeta.
  fold (highRiskCount cs). fold (lowUtilizationCount cs).
  rewrite H1, H3.
  destruct (bool_decide (15 * length cs < 100 * highRiskCount cs)%nat) eqn:E1;
    destruct (List.find _ segments) as [premiumSegment|];
    try destruct (SegmentAnalysis.growthRate premiumSegment >? Fin 15);
    destruct (bool_decide (3 * length cs < 10 * lowUtilizationCount cs)%nat);
    (eexists; split; [reflexivity|]; split; [reflexivity|]);
    cbn [divisions mbind M_bind divide mret M_ret result app];
    try (apply Forall_nil; exact I);
    (apply Forall_cons; split; [|apply Forall_nil; exact I]);
    apply bool_decide_eq_true in E1;
    unfold byZero; cbn [divisor JS.of_nat JS.strictEq];
    apply of_nat_nonzero; intros Hn; rewrite Hn in E1;
    pose proof (filter_length_le
                  (λ c, bool_decide (riskCategory c = High)) cs) as Hle;
    unfold highRiskCount in E1; lia.
Qed.

(** ** Risk distribution and business insights *)


Lemma calculateRiskDistribution_run (cs : list Customer) :
  calculateRiskDistribution cs
  = Run (Some
      [ RiskDistribution.mk "Low Risk" (JS.of_nat (categoryCount Low cs))
          (JS.of_nat (categoryCount Low cs) / JS.of_nat (length cs)) None;
        RiskDistribution.mk "Medium Risk" (JS.of_nat (categoryCount Medium cs))
          (JS.of_nat (categoryCount Medium cs) / JS.of_nat (length cs)) None;
        RiskDistribution.mk "High Risk" (JS.of_nat (categoryCount High cs))
          (JS.of_nat (categoryCount High cs) / JS.of_nat (length cs)) None ])
      [ Division (JS.of_nat (categoryCount Low cs)) (JS.of_nat (length cs));
        Division (JS.of_nat (categoryCount Medium cs)) (JS.of_nat (length cs));
        Division (JS.of_nat (categoryCount High cs)) (JS.of_nat (length cs)) ].
Proof. reflexivity. Qed.



(** ** Monthly trends *)

Lemma Map_get_set_eq {V : Type} (m : list (string * V)) (k : string) (v : V) :
  Map_get (Map_set m k v) k = Some v.
Proof.
  unfold Map_get. induction m as [|[ke ve] m IH]; cbn [Map_set List.find fst].
  - rewrite String.eqb_refl. reflexivity.
  - destruct (String.eqb ke k) eqn:E; cbn [List.find fst].
    + rewrite String.eqb_refl. reflexivity.
    + rewrite E. exact IH.
Qed.

Lemma Map_get_set_ne {V : Type} (m : list (string * V)) (k k' : string) (v : V) :
  k' ≠ k → Map_get (Map_set m k v) k' = Map_get m k'.
Proof.
  intros Hne. apply String.eqb_neq in Hne. rewrite String.eqb_sym in Hne.
  unfold Map_get. induction m as [|[ke ve] m IH]; cbn [Map_set List.find fst].
  - rewrite Hne. reflexivity.
  - destruct (String.eqb ke k) eqn:E; cbn [List.find fst].
    + apply String.eqb_eq in E. rewrite E, Hne. reflexivity.
    + destruct (String.eqb ke k'); [reflexivity | exact IH].
Qed.

Lemma Map_has_get {V : Type} (m : list (string * V)) (k : string) :
  Map_has m k = bool_decide (is_Some (Map_get m k)).
Proof.
  unfold Map_has, Map_get. induction m as [|[ke ve] m IH]; cbn [existsb List.find fst].
  - symmetry. apply bool_decide_eq_false. intros [? [=]].
  - destruct (String.eqb ke k); cbn [orb]; [|exact IH].
    symmetry. apply bool_decide_eq_true. eexists. reflexivity.
Qed.

Lemma Map_has_keys {V : Type} (m : list (string * V)) (k : string) :
  Map_has m k = true ↔ In k (map fst m).
Proof.
  unfold Map_has. rewrite existsb_exists, in_map_iff. split.
  - intros (e & He & <-%String.eqb_eq). eauto.
  - intros (e & <- & He). exists e. split; [exact He | apply String.eqb_refl].
Qed.

Lemma Map_set_keys {V : Type} (m : list (string * V)) (k : string) (v : V) :
  map fst (Map_set m k v) = if Map_has m k then map fst m else map fst m ++ [k].
Proof.
  unfold Map_has.
  induction m as [|[ke ve] m IH]; cbn [Map_set existsb map fst]; [reflexivity|].
  destruct (String.eqb ke k) eqn:E; cbn [orb map fst].
  - apply String.eqb_eq in E. rewrite E. reflexivity.
  - rewrite IH. destruct (existsb _ m); reflexivity.
Qed.

Lemma Map_set_NoDup {V : Type} (m : list (string * V)) (k : string) (v : V) :
  NoDup (map fst m) → NoDup (map fst (Map_set m k v)).
Proof.
  intros Hm. rewrite Map_set_keys. destruct (Map_has m k) eqn:E; [exact Hm|].
  apply NoDup_app. split; [exact Hm|]. split; [|apply NoDup_singleton].
  intros x Hx [->|[]]%list_elem_of_In. 
  apply list_elem_of_In, Map_has_keys in Hx. congruence.
Qed.

Lemma Map_get_In {V : Type} (m : list (string * V)) (k : string) (v : V) :
  NoDup (map fst m) → In (k, v) m → Map_get m k = Some v.
Proof.
  unfold Map_get. induction m as [|[ke ve] m IH]; intros Hnd Hin; [destruct Hin|].
  cbn [map fst] in Hnd. apply NoDup_cons in Hnd as [Hfresh Hnd].
  cbn [List.find fst]. destruct Hin as [[= -> ->]|Hin].
  - rewrite String.eqb_refl. reflexivity.
  - destruct (String.eqb ke k) eqn:E; [|apply IH; assumption].
    apply String.eqb_eq in E. exfalso. apply Hfresh. rewrite E.
    apply list_elem_of_In, in_map_iff. exists (k, v). auto.
Qed.

Lemma Map_get_Some_In {V : Type} (m : list (string * V)) (k : string) (v : V) :
  Map_get m k = Some v → In (k, v) m.
Proof.
  unfold Map_get. destruct (List.find _ m) as [[k' v']|] eqn:E; [|discriminate].
  intros [= <-]. apply find_some in E as [Hin Hk%String.eqb_eq].
  cbn [fst] in Hk. subst k'. exact Hin.
Qed.

Lemma bind_divisions {A B : Type} (m : M A) (k : A → M B) :
  divisions (m ≫= k)
  = divisions m ++ match result m with Some a => divisions (k a) | None => [] end.
Proof.
  unfold mbind, M_bind. destruct (result m); cbn [divisions];
    rewrite ?app_nil_r; reflexivity.
Qed.

Lemma ret_bind_result {A B : Type} (a : A) (k : A → M B) :
  result (mret a ≫= k) = result (k a).
Proof. reflexivity. Qed.

Lemma ret_bind_divisions {A B : Type} (a : A) (k : A → M B) :
  divisions (mret a ≫= k) = divisions (k a).
Proof. reflexivity. Qed.

Section Months.

Variable Date_parse : string → option Z.
Variable Date_toISOString : Z → string.

Lemma joinedIn_snoc (month : string) (cs : list Customer) (c : Customer) :
  joinedIn Date_parse Date_toISOString month (cs ++ [c])
  = (joinedIn Date_parse Date_toISOString month cs
     + if bool_decide (monthOf Date_parse Date_toISOString c = Some month)
       then 1 else 0)%nat.
Proof.
  unfold joinedIn. rewrite List.filter_app, length_app. cbn [List.filter].
  destruct (bool_decide _); reflexivity.
Qed.

Lemma recordCustomer_invalid (md : list (string * MonthData.t)) (c : Customer) :
  Date_parse (joinDate c) = None →
  result (recordCustomer Date_parse Date_toISOString md c) = None.
Proof. intros H. unfold recordCustomer. rewrite H. reflexivity. Qed.

Lemma recordCustomer_step (md : list (string * MonthData.t))
    (pre : list Customer) (c : Customer) (t : Z) :
  Date_parse (joinDate c) = Some t →
  monthsOf Date_parse Date_toISOString md pre →
  ∃ md' : list (string * MonthData.t),
    result (recordCustomer Date_parse Date_toISOString md c) = Some md' ∧
    divisions (recordCustomer Date_parse Date_toISOString md c) = [] ∧
    monthsOf Date_parse Date_toISOString md' (pre ++ [c]).
Proof.
  intros Ht [Hnd Hinv].
  assert (Hmonth : monthOf Date_parse Date_toISOString c
                   = Some (String.substring 0 7 (Date_toISOString t))).
  { unfold monthOf. rewrite Ht. reflexivity. }
  unfold recordCustomer. rewrite Ht, ret_bind_result, ret_bind_divisions.
  set (m0 := String.substring 0 7 (Date_toISOString t)) in *. cbv zeta.
  assert (Hother : ∀ m, m ≠ m0 →
            joinedIn Date_parse Date_toISOString m (pre ++ [c])
            = joinedIn Date_parse Date_toISOString m pre).
  { intros m Hm. rewrite joinedIn_snoc, bool_decide_eq_false_2; [lia|].
    rewrite Hmonth. intros [= ->]. contradiction. }
  assert (Hsame : joinedIn Date_parse Date_toISOString m0 (pre ++ [c])
                  = (joinedIn Date_parse Date_toISOString m0 pre + 1)%nat).
  { rewrite joinedIn_snoc, bool_decide_eq_true_2; [reflexivity | exact Hmonth]. }
  destruct (Map_has md m0) eqn:Hhas; cbn [negb].
  - rewrite Map_has_get in Hhas. apply bool_decide_eq_true in Hhas as [d Hd].
    rewrite Hd. eexists. split; [reflexivity|]. split; [reflexivity|].
    split; [apply Map_set_NoDup, Hnd|]. intros m.
    destruct (decide (m = m0)) as [->|Hne].
    + rewrite Map_get_set_eq. cbn [MonthData.newCustomers].
      specialize (Hinv m0). rewrite Hd in Hinv. destruct Hinv as (q & -> & Hq & Hge).
      exists (q + 1)%Q. split; [reflexivity|]. rewrite Hsame. split; [|lia].
      rewrite Nat2Z.inj_add, inject_Z_plus, Hq. reflexivity.
    + rewrite (Map_get_set_ne _ _ _ _ Hne), (Hother _ Hne). apply Hinv.
  - rewrite Map_has_get in Hhas. apply bool_decide_eq_false in Hhas.
    assert (Hnone : Map_get md m0 = None).
    { destruct (Map_get md m0) eqn:E; [|reflexivity]. exfalso. apply Hhas. eauto. }
    rewrite Map_get_set_eq. eexists. split; [reflexivity|]. split; [reflexivity|].
    split; [apply Map_set_NoDup, Map_set_NoDup, Hnd|]. intros m.
    destruct (decide (m = m0)) as [->|Hne].
    + rewrite Map_get_set_eq. cbn [MonthData.newCustomers].
      specialize (Hinv m0). rewrite Hnone in Hinv.
      exists (0 + 1)%Q. split; [reflexivity|]. rewrite Hsame, Hinv.
      split; [reflexivity | lia].
    + rewrite !(Map_get_set_ne _ _ _ _ Hne), (Hother _ Hne). apply Hinv.
Qed.

Lemma forEachM_recordCustomer (cs : list Customer)
    (md : list (string * MonthData.t)) (pre : list Customer) :
  Forall (λ c, is_Some (Date_parse (joinDate c))) cs →
  monthsOf Date_parse Date_toISOString md pre →
  ∃ md' : list (string * MonthData.t),
    result (forEachM (recordCustomer Date_parse Date_toISOString) md cs) = Some md' ∧
    divisions (forEachM (recordCustomer Date_parse Date_toISOString) md cs) = [] ∧
    monthsOf Date_parse Date_toISOString md' (pre ++ cs).
Proof.
  revert md pre. induction cs as [|c cs IH]; intros md pre Hvalid Hinv.
  - exists md. rewrite app_nil_r. auto.
  - apply Forall_cons in Hvalid as [[t Ht] Hvalid].
    destruct (recordCustomer_step md pre c t Ht Hinv) as (md1 & Hr & Hd & Hinv1).
    destruct (IH md1 (pre ++ [c]) Hvalid Hinv1) as (md' & Hr' & Hd' & Hinv').
    exists md'. cbn [forEachM].
    rewrite (bind_result_Some _ _ _ Hr), bind_divisions, Hr, Hd, Hd'.
    rewrite <- app_assoc in Hinv'. auto.
Qed.

Lemma forEachM_recordCustomer_invalid (cs : list Customer)
    (md : list (string * MonthData.t)) :
  Exists (λ c, Date_parse (joinDate c) = None) cs →
  result (forEachM (recordCustomer Date_parse Date_toISOString) md cs) = None.
Proof.
  revert md. induction cs as [|c cs IH]; intros md Hinvalid.
  - apply Exists_nil in Hinvalid. destruct Hinvalid.
  - cbn [forEachM]. rewrite bind_result.
    destruct (Date_parse (joinDate c)) as [t|] eqn:Ht.
    + apply Exists_cons in Hinvalid as [Hc|Hcs]; [congruence|].
      destruct (result (recordCustomer Date_parse Date_toISOString md c));
        [apply IH, Hcs | reflexivity].
    + rewrite (recordCustomer_invalid md c Ht). reflexivity.
Qed.

End Months.

Lemma run_bind {A B : Type} (a : A) (k : A → M B) : Run (Some a) [] ≫= k = k a.
Proof. unfold mbind, M_bind. cbn [result divisions app]. destruct (k a). reflexivity. Qed.

Lemma mapM_run {A B : Type} (f : A → M B) (g : A → B) (d : A → division)
    (l : list A) :
  (∀ x, f x = Run (Some (g x)) [d x]) →
  mapM f l = Run (Some (map g l)) (map d l).
Proof.
  intros Hf. induction l as [|x l IH]; [reflexivity|].
  cbn [mapM map]. rewrite Hf, IH. cbn. rewrite app_nil_r. reflexivity.
Qed.

(** [array.sort] keeps the elements. *)
Lemma sort_insert_permutation {A : Type} (compare : A → A → num) (x : A) (l : list A) :
  sort_insert compare x l ≡ₚ x :: l.
Proof.
  induction l as [|y l IH]; [reflexivity|]. cbn [sort_insert].
  destruct (compare x y <? Fin 0); [reflexivity|].
  rewrite IH. apply Permutation_swap.
Qed.

Lemma sort_permutation {A : Type} (compare : A → A → num) (l : list A) :
  sort compare l ≡ₚ l.
Proof.
  unfold sort.
  assert (H : ∀ acc, fold_left (λ sorted x, sort_insert compare x sorted) l acc
                     ≡ₚ acc ++ l); [|apply (H [])].
  induction l as [|x l IH]; intros acc; cbn [fold_left].
  - rewrite app_nil_r. reflexivity.
  - rewrite IH, sort_insert_permutation. apply Permutation_middle.
Qed.



Lemma valid_or_invalid (Date_parse : string → option Z) (cs : list Customer) :
  Forall (λ c, is_Some (Date_parse (joinDate c))) cs ∨
  Exists (λ c, Date_parse (joinDate c) = None) cs.
Proof.
  induction cs as [|c cs [IH|IH]].
  - left. constructor.
  - destruct (Date_parse (joinDate c)) eqn:E.
    + left. constructor; [rewrite E; eauto | exact IH].
    + right. constructor. exact E.
  - right. apply Exists_cons_tl, IH.
Qed.

(** What [calculateMonthlyTrends] makes of the map that its loop has built. *)
Lemma calculateMonthlyTrends_run (Date_parse : string → option Z)
    (Date_toISOString : Z → string) (String_localeCompare : string → string → num)
    (cs : list Customer) (md : list (string * MonthData.t)) :
  result (forEachM (recordCustomer Date_parse Date_toISOString) [] cs) = Some md →
  divisions (forEachM (recordCustomer Date_parse Date_toISOString) [] cs) = [] →
  calculateMonthlyTrends Date_parse Date_toISOString String_localeCompare cs
  = Run (Some (sort (λ a b, String_localeCompare (MonthlyTrend.month a)
                                                (MonthlyTrend.month b))
                 (map (λ entry,
                    {| MonthlyTrend.month := fst entry;
                       MonthlyTrend.newCustomers := MonthData.newCustomers (snd entry);
                       MonthlyTrend.totalRevenue := MonthData.totalRevenue (snd entry);
                       MonthlyTrend.avgRiskScore :=
                         Math_round (MonthData.avgRiskScore (snd entry)
                                     / MonthData.newCustomers (snd entry)) |}) md)))
        (map (λ entry, Division (MonthData.avgRiskScore (snd entry))
                                (MonthData.newCustomers (snd entry))) md).
Proof.
  intros Hr Hd. unfold calculateMonthlyTrends. cbv zeta.
  destruct (forEachM _ _ cs) as [r ds]. cbn [result divisions] in Hr, Hd.
  subst r ds. rewrite run_bind.
  erewrite mapM_run by (intros x; reflexivity).
  cbn. rewrite app_nil_r. reflexivity.
Qed.

Lemma monthsOf_empty (Date_parse : string → option Z) (Date_toISOString : Z → string) :
  monthsOf Date_parse Date_toISOString [] [].
Proof. split; [constructor | intros m; reflexivity]. Qed.

(** X13.  [calculateMonthlyTrends] raises exactly when the join date of a
    customer is invalid.  Otherwise it returns one trend for each month in
    which a customer joined, no month twice; the [newCustomers] of a trend
    is the number of customers who joined in its month, which is at least
    1, so that no average is a division by zero. *)
Theorem calculateMonthlyTrends_months (Date_parse : string → option Z)
    (Date_toISOString : Z → string) (String_localeCompare : string → string → num)
    (cs : list Customer) :
  (result (calculateMonthlyTrends Date_parse Date_toISOString String_localeCompare cs)
   = None ↔ Exists (λ c, Date_parse (joinDate c) = None) cs) ∧
  ∀ trends : list MonthlyTrend.t,
    result (calculateMonthlyTrends Date_parse Date_toISOString String_localeCompare cs)
    = Some trends →
    NoDup (map MonthlyTrend.month trends) ∧
    Forall (λ t,
      ∃ q : Q, MonthlyTrend.newCustomers t = Fin q ∧
        q == inject_Z (Z.of_nat
               (joinedIn Date_parse Date_toISOString (MonthlyTrend.month t) cs)) ∧
        (1 ≤ joinedIn Date_parse Date_toISOString (MonthlyTrend.month t) cs)%nat)
      trends ∧
    (∀ c, c ∈ cs →
       ∃ t, t ∈ trends ∧
            monthOf Date_parse Date_toISOString c = Some (MonthlyTrend.month t)) ∧
    Forall (λ d, byZero d = false)
      (divisions (calculateMonthlyTrends Date_parse Date_toISOString
                    String_localeCompare cs)).
Proof.
  destruct (valid_or_invalid Date_parse cs) as [Hvalid|Hinvalid].
  - destruct (forEachM_recordCustomer Date_parse Date_toISOString cs [] []
                Hvalid (monthsOf_empty _ _)) as (md & Hr & Hd & Hnd & Hinv).
    cbn [app] in Hinv.
    rewrite (calculateMonthlyTrends_run _ _ String_localeCompare cs md Hr Hd).
    cbn [result divisions]. split.
    { split; [discriminate|]. intros Hinvalid. exfalso.
      apply Exists_exists in Hinvalid as (c & Hc & Hnone).
      rewrite Forall_forall in Hvalid. destruct (Hvalid c Hc) as [t Ht]. congruence. }
    intros trends [= <-].
    assert (Hentry : ∀ e, In e md →
              ∃ q : Q, MonthData.newCustomers (snd e) = Fin q ∧
                q == inject_Z (Z.of_nat
                       (joinedIn Date_parse Date_toISOString (fst e) cs)) ∧
                (1 ≤ joinedIn Date_parse Date_toISOString (fst e) cs)%nat).
    { intros [k v] He. specialize (Hinv k).
      rewrite (Map_get_In md k v Hnd He) in Hinv. exact Hinv. }
    split; [|split; [|split]].
    + rewrite sort_permutation, map_map. cbn [MonthlyTrend.month]. exact Hnd.
    + rewrite sort_permutation. apply Forall_forall.
      intros t [e [<- He]]%list_elem_of_In%in_map_iff. apply Hentry, He.
    + intros c Hc. rewrite Forall_forall in Hvalid. destruct (Hvalid c Hc) as [t Ht].
      assert (Hmonth : monthOf Date_parse Date_toISOString c
                       = Some (String.substring 0 7 (Date_toISOString t))).
      { unfold monthOf. rewrite Ht. reflexivity. }
      set (m := String.substring 0 7 (Date_toISOString t)) in *.
      specialize (Hinv m). destruct (Map_get md m) as [d|] eqn:Hget.
      * eexists. split.
        -- rewrite sort_permutation. apply list_elem_of_In, in_map_iff.
           exists (m, d). split; [reflexivity | apply Map_get_Some_In, Hget].
        -- exact Hmonth.
      * exfalso. unfold joinedIn in Hinv.
        assert (Hin : In c (List.filter
                  (λ c, bool_decide (monthOf Date_parse Date_toISOString c = Some m)) cs)).
        { apply filter_In. split; [apply list_elem_of_In, Hc|].
          apply bool_decide_eq_true_2, Hmonth. }
        destruct (List.filter _ cs); [destruct Hin | discriminate Hinv].
    + apply Forall_forall.
      intros d [e [<- He]]%list_elem_of_In%in_map_iff.
      destruct (Hentry e He) as (q & Hq & Heq & Hge).
      unfold byZero. cbn [divisor]. rewrite Hq. cbn [JS.strictEq].
      destruct (Qeq_bool q 0) eqn:E; [|reflexivity].
      apply Qeq_bool_eq in E. rewrite E in Heq. change 0 with (inject_Z 0) in Heq.
      rewrite inject_Z_injective in Heq. lia.
  - assert (Hnone : result (calculateMonthlyTrends Date_parse Date_toISOString
                              String_localeCompare cs) = None).
    { unfold calculateMonthlyTrends. cbv zeta. rewrite bind_result.
      rewrite (forEachM_recordCustomer_invalid _ _ cs [] Hinvalid). reflexivity. }
    rewrite Hnone. split; [tauto|]. intros trends [=].
Qed.

Lemma calculateMonthlyTrends_months_witness :
  NoDup (map MonthlyTrend.month
           (default [] (result (calculateMonthlyTrends
              (λ _, Some 0%Z) (λ _, "1970-01-01T00:00:00.000Z") compareBytes
              (portfolio 1 1))))).
Proof.
  destruct (calculateMonthlyTrends_months
              (λ _, Some 0%Z) (λ _, "1970-01-01T00:00:00.000Z") compareBytes
              (portfolio 1 1)) as [_ H].
  apply (H _ eq_refl).
Defined.







(** ** Business insights *)

Lemma detectFraudPatterns_result (cs : list Customer) :
  result (detectFraudPatterns cs) = Some (List.filter (λ c, exceedsThreshold c cs) cs).
Proof.
  unfold detectFraudPatterns. rewrite filterM_result; [reflexivity|].
  intros c. rewrite bind_result.
  destruct (calculateAnomalyScore_returns c cs) as [s ->]. eexists. reflexivity.
Qed.

Lemma calculateMonthlyTrends_raises (Date_parse : string → option Z)
    (Date_toISOString : Z → string) (String_localeCompare : string → string → num)
    (cs : list Customer) :
  result (calculateMonthlyTrends Date_parse Date_toISOString String_localeCompare cs)
  = None ↔ Exists (λ c, Date_parse (joinDate c) = None) cs.
Proof.
  destruct (valid_or_invalid Date_parse cs) as [Hvalid|Hinvalid].
  - destruct (forEachM_recordCustomer Date_parse Date_toISOString cs [] []
                Hvalid (monthsOf_empty _ _)) as (md & Hr & Hd & _).
    rewrite (calculateMonthlyTrends_run _ _ String_localeCompare cs md Hr Hd).
    split; [discriminate|]. intros Hinvalid. exfalso.
    apply Exists_exists in Hinvalid as (c & Hc & Hnone).
    rewrite Forall_forall in Hvalid. destruct (Hvalid c Hc) as [t Ht]. congruence.
  - split; [intros _; exact Hinvalid|]. intros _.
    unfold calculateMonthlyTrends. cbv zeta. rewrite bind_result.
    rewrite (forEachM_recordCustomer_invalid _ _ cs [] Hinvalid). reflexivity.
Qed.

(** X15.  [generateBusinessInsights] raises exactly when the join date of
    a customer is invalid.  Otherwise its counts are those of the customer
    list: [totalCustomers] is the length, [highRiskCount] the number of
    customers of category High, the fraud suspects and the premium
    opportunities are at most the length; the average risk score is the
    rounded mean, which is NaN for the empty list; and the recommendations,
    the risk distribution and the monthly trends are those of the three
    functions called on the same list. *)
Theorem generateBusinessInsights_summary (Date_parse : string → option Z)
    (Date_toISOString : Z → string) (Number_toString : num → string)
    (Number_toFixed : num → nat → string)
    (String_localeCompare : string → string → num)
    (cs : list Customer) (segments : list SegmentAnalysis.t) :
  (result (generateBusinessInsights Date_parse Date_toISOString Number_toString
             Number_toFixed String_localeCompare cs segments) = None
   ↔ Exists (λ c, Date_parse (joinDate c) = None) cs) ∧
  ∀ r : AnalyticsResult.t,
    result (generateBusinessInsights Date_parse Date_toISOString Number_toString
              Number_toFixed String_localeCompare cs segments) = Some r →
    AnalyticsResult.totalCustomers r = JS.of_nat (length cs) ∧
    AnalyticsResult.highRiskCount r = JS.of_nat (categoryCount High cs) ∧
    (∃ k : nat, AnalyticsResult.fraudSuspects r = JS.of_nat k ∧ (k ≤ length cs)%nat) ∧
    (∃ k : nat, AnalyticsResult.premiumOpportunities r = JS.of_nat k ∧
                (k ≤ length cs)%nat) ∧
    AnalyticsResult.averageRiskScore r = mean cs K_riskScore ∧
    (cs = [] → AnalyticsResult.averageRiskScore r = NaN) ∧
    result (generateRecommendations Number_toString Number_toFixed cs segments)
    = Some (AnalyticsResult.recommendations r) ∧
    result (calculateRiskDistribution cs) = Some (AnalyticsResult.riskDistribution r) ∧
    result (calculateMonthlyTrends Date_parse Date_toISOString String_localeCompare cs)
    = Some (AnalyticsResult.monthlyTrends r).
Proof.
  pose proof (calculateMonthlyTrends_raises Date_parse Date_toISOString
                String_localeCompare cs) as Hraises.
  destruct (generateRecommendations_shape Number_toString Number_toFixed cs segments)
    as (later & Hrec & _).
  unfold generateBusinessInsights. cbv zeta.
  rewrite (bind_result_Some _ _ _ (detectFraudPatterns_result cs)).
  rewrite (bind_result_Some _ _ _ (calculateAverage_result cs K_riskScore)).
  rewrite (bind_result_Some _ _ _ Hrec).
  rewrite (bind_result_Some _ _ _ (f_equal result (calculateRiskDistribution_run cs))).
  rewrite bind_result.
  destruct (result (calculateMonthlyTrends Date_parse Date_toISOString
                      String_localeCompare cs)) as [trends|] eqn:Htrends;
    cbn [mbind option_bind result mret M_ret].
  - split.
    { split; [discriminate|]. intros H%Hraises. discriminate H. }
    intros r [= <-]. cbn.
    split; [reflexivity|]. split; [reflexivity|].
    split; [eexists; split; [reflexivity | apply filter_length_le]|].
    split; [eexists; split; [reflexivity | apply filter_length_le]|].
    split; [reflexivity|]. split; [intros ->; reflexivity|].
    split; [exact Hrec|]. split; reflexivity.
  - split; [|intros r [=]]. split; [intros _; apply Hraises; reflexivity | reflexivity].
Qed.

Lemma generateBusinessInsights_summary_witness :
  ∃ r : AnalyticsResult.t,
    result (generateBusinessInsights (λ _, Some 0%Z) (λ _, "1970-01-01T00:00:00.000Z")
              (λ _, "1") (λ _ _, "25.0") compareBytes (portfolio 1 3) []) = Some r ∧
    AnalyticsResult.totalCustomers r = Fin 4 ∧
    AnalyticsResult.highRiskCount r = Fin 1.
Proof.
  eexists. split; [reflexivity|].
  split;
    apply (proj2 (generateBusinessInsights_summary (λ _, Some 0%Z)
                    (λ _, "1970-01-01T00:00:00.000Z") (λ _, "1") (λ _ _, "25.0")
                    compareBytes (portfolio 1 3) []) _ eq_refl).
Defined.

(** ** The ingestion of components/DataManagement.tsx *)

Lemma orNumber_truthy (a : num) (q : Q) :
  Qeq_bool q 0 = false → a ≠ PInf → a ≠ NInf →
  isFinite (orNumber a (Fin q)) = true ∧ truthy (orNumber a (Fin q)) = true.
Proof.
  intros Hq Hp Hn. destruct a as [x| | |]; try contradiction; cbn [orNumber].
  - destruct (Qeq_bool x 0) eqn:E; cbn [isFinite truthy]; rewrite ?E, ?Hq; auto.
  - cbn [isFinite truthy]. rewrite Hq. auto.
Qed.

Lemma orNumber_finite (a : num) (q : Q) :
  a ≠ PInf → a ≠ NInf → isFinite (orNumber a (Fin q)) = true.
Proof.
  intros Hp Hn. destruct a as [x| | |]; try contradiction; cbn [orNumber];
    [destruct (Qeq_bool x 0)|]; reflexivity.
Qed.

Lemma div_truthy (a b : num) :
  isFinite a = true → isFinite b = true → truthy b = true → isFinite (a / b) = true.
Proof.
  intros [x ->]%isFinite_Fin [y ->]%isFinite_Fin Hb. cbn [truthy] in Hb.
  apply negb_true_iff in Hb. rewrite (div_Fin _ _ Hb). reflexivity.
Qed.

Lemma integerOrNaN_not_infinite (a : num) :
  integerOrNaN a = true → a ≠ PInf ∧ a ≠ NInf.
Proof. destruct a; intros H; try discriminate H; split; discriminate. Qed.

(** X16.  Whatever the header and the row, as long as [parseInt] yields
    NaN or an integer on the ten cells that are read as numbers (as it does
    on every cell but a numeral beyond the range of numbers), the record
    that [parseCustomerFromCSV] builds has finite numeric fields, and every
    numeric field with a non-zero default (all but the fraud alerts) is
    neither 0 nor NaN: a zero or unreadable value is replaced by the
    default.  Hence the account age is never 0, the structure of risk
    factors built from the record is finite, and the risk score of the
    record is an integer that is at most 100. *)
Theorem parseCustomerFromCSV_truthy
    (String_toLowerCase : string → string) (String_includes : string → string → bool)
    (parseInt : string → num) (String_of_index : nat → string) (today : string)
    (headers values : list string) (index : nat) :
  Forall (λ fieldName,
    integerOrNaN (parseIntOf parseInt
      (getField String_toLowerCase String_includes headers values fieldName)) = true)
    numericFieldNames →
  ∃ c : Customer,
    parseCustomerFromCSV String_toLowerCase String_includes parseInt
      String_of_index today headers values index = Some c ∧
    finiteFields c = true ∧
    forallb truthy
      [ age c; income c; creditScore c; accountBalance c; transactionCount c;
        avgTransactionAmount c; paymentHistory c; utilizationRate c; accountAge c ]
    = true ∧
    finiteFactors (riskFactors c) = true ∧
    ∃ z : Z, calculateRiskScore c = Fin (inject_Z z) ∧ (z ≤ 100)%Z.
Proof.
  intros Hcells. eexists. split; [reflexivity|].
  assert (Hcell : ∀ fieldName, In fieldName numericFieldNames →
            parseIntOf parseInt
              (getField String_toLowerCase String_includes headers values fieldName)
              ≠ PInf ∧
            parseIntOf parseInt
              (getField String_toLowerCase String_includes headers values fieldName)
              ≠ NInf).
  { intros fieldName Hname. apply integerOrNaN_not_infinite.
    rewrite Forall_forall in Hcells. apply Hcells, list_elem_of_In, Hname. }
  assert (Htruthy : ∀ (fieldName : string) (q : Q),
            In fieldName numericFieldNames → Qeq_bool q 0 = false →
            isFinite (orNumber (parseIntOf parseInt
              (getField String_toLowerCase String_includes headers values fieldName))
              (Fin q)) = true ∧
            truthy (orNumber (parseIntOf parseInt
              (getField String_toLowerCase String_includes headers values fieldName))
              (Fin q)) = true).
  { intros fieldName q Hname Hq. apply orNumber_truthy; [exact Hq | apply Hcell, Hname..]. }
  assert (Hfraud : isFinite (orNumber (parseIntOf parseInt
            (getField String_toLowerCase String_includes headers values "fraud_alerts"))
            (Fin 0)) = true).
  { apply orNumber_finite; apply Hcell; unfold numericFieldNames; cbn [In]; tauto. }
  match goal with |- finiteFields ?r = true ∧ _ => set (c := r) end.
  assert (Hfin : finiteFields c = true).
  { unfold finiteFields. subst c. cbn [forallb age income creditScore accountBalance
      transactionCount avgTransactionAmount riskScore fraudAlerts paymentHistory
      utilizationRate accountAge isFinite].
    rewrite Hfraud.
    repeat match goal with
    | |- context [isFinite (orNumber (parseIntOf parseInt
                    (getField _ _ headers values ?n)) (Fin ?q))] =>
        rewrite (proj1 (Htruthy n q ltac:(unfold numericFieldNames; cbn [In]; tauto)
                          eq_refl))
    end. reflexivity. }
  split; [exact Hfin|]. split; [|split].
  - subst c. cbn [forallb age income creditScore accountBalance
      transactionCount avgTransactionAmount paymentHistory utilizationRate accountAge].
    repeat match goal with
    | |- context [truthy (orNumber (parseIntOf parseInt
                    (getField _ _ headers values ?n)) (Fin ?q))] =>
        rewrite (proj2 (Htruthy n q ltac:(unfold numericFieldNames; cbn [In]; tauto)
                          eq_refl))
    end. reflexivity.
  - apply finiteFields_elim in Hfin
      as (Hin & Hcs & Htc & Hata & Hfa & Hph & Hur & Hage).
    unfold finiteFactors, riskFactors.
    cbn [forallb RiskFactors.creditScore RiskFactors.income RiskFactors.paymentHistory
         RiskFactors.utilizationRate RiskFactors.accountAge RiskFactors.fraudAlerts
         RiskFactors.transactionPattern RiskFactors.avgTransactionAmount].
    rewrite Hin, Hcs, Hata, Hfa, Hph, Hur, Hage.
    rewrite (div_truthy _ _ Htc Hage); [reflexivity|].
    subst c. cbn [accountAge].
    apply (proj2 (Htruthy "account_age" 24
                    ltac:(unfold numericFieldNames; cbn [In]; tauto) eq_refl)).
  - destruct (calculateRiskScore_integer c Hfin) as (z & Hz & Hle & _). eauto.
Qed.

Lemma parseCustomerFromCSV_truthy_witness :
  ∃ c : Customer,
    parseCustomerFromCSV toLowerCase_bytes includes_bytes parseInt_decimal
      (λ _, "2") "2024-06-15"
      ["ID"; "Income"; "Credit_Score"; "Account_Age"; "Fraud_Alerts"]
      ["C-7"; "450000"; "0"; "36"; "-2"] 2 = Some c ∧
    finiteFields c = true ∧
    forallb truthy
      [ age c; income c; creditScore c; accountBalance c; transactionCount c;
        avgTransactionAmount c; paymentHistory c; utilizationRate c; accountAge c ]
    = true ∧
    finiteFactors (riskFactors c) = true ∧
    ∃ z : Z, calculateRiskScore c = Fin (inject_Z z) ∧ (z ≤ 100)%Z.
Proof.
  apply (parseCustomerFromCSV_truthy toLowerCase_bytes includes_bytes parseInt_decimal
           (λ _, "2") "2024-06-15"
           ["ID"; "Income"; "Credit_Score"; "Account_Age"; "Fraud_Alerts"]
           ["C-7"; "450000"; "0"; "36"; "-2"] 2).
  unfold numericFieldNames.
  repeat (apply Forall_cons; split; [vm_compute; reflexivity|]).
  apply Forall_nil. exact I.
Defined.

Lemma findIndex_none {A : Type} (f : A → bool) (l : list A) :
  (∀ x, In x l → f x = false) → findIndex f l = None.
Proof.
  induction l as [|x l IH]; intros H; [reflexivity|]. cbn [findIndex].
  rewrite (H x (or_introl eq_refl)), IH; [reflexivity|].
  intros y Hy. apply H. right. exact Hy.
Qed.

(** X17.  When no header of the file contains the name of any field, and
    [parseInt] of the empty string is NaN, [parseCustomerFromCSV] builds,
    whatever the row, the record of the defaults: age 30, income 300000,
    credit score 650, balance 50000, 25 transactions of 5000 on average,
    payment history 85, utilization 45, account age 24, no fraud alert,
    Mumbai, Maharashtra, today for both dates, and the identifier CUST-
    followed by the index padded to four digits. *)
Theorem parseCustomerFromCSV_defaults
    (String_toLowerCase : string → string) (String_includes : string → string → bool)
    (parseInt : string → num) (String_of_index : nat → string) (today : string)
    (headers values : list string) (index : nat) :
  Forall (λ h,
    Forall (λ fieldName,
      String_includes (String_toLowerCase h) (String_toLowerCase fieldName) = false)
      fieldNames) headers →
  parseInt "" = NaN →
  parseCustomerFromCSV String_toLowerCase String_includes parseInt
    String_of_index today headers values index
  = Some (defaultCustomer String_of_index today index).
Proof.
  intros Hnone Hempty.
  assert (Hfield : ∀ fieldName, In fieldName fieldNames →
            getField String_toLowerCase String_includes headers values fieldName
            = Some "").
  { intros fieldName Hname. unfold getField. cbv zeta.
    rewrite findIndex_none; [reflexivity|]. intros h Hh.
    rewrite Forall_forall in Hnone. specialize (Hnone h (proj2 (list_elem_of_In _ _) Hh)).
    rewrite Forall_forall in Hnone. apply Hnone, list_elem_of_In, Hname. }
  unfold parseCustomerFromCSV, defaultCustomer. cbv zeta.
  rewrite !Hfield by (unfold fieldNames; cbn [In]; tauto).
  assert (Hnum : parseIntOf parseInt (Some "") = NaN) by exact Hempty.
  rewrite !Hnum. reflexivity.
Qed.

Lemma parseCustomerFromCSV_defaults_witness :
  parseCustomerFromCSV (λ s, s) String.eqb parseInt_sample (λ _, "7") "2024-06-15"
    ["phone"; "email"] ["555"; "a@b"] 7
  = Some (defaultCustomer (λ _, "7") "2024-06-15" 7).
Proof.
  apply (parseCustomerFromCSV_defaults (λ s, s) String.eqb parseInt_sample (λ _, "7")
           "2024-06-15" ["phone"; "email"] ["555"; "a@b"] 7).
  - repeat (apply Forall_cons; split;
              [repeat (apply Forall_cons; split; [reflexivity|]);
               apply Forall_nil; exact I|]).
    apply Forall_nil. exact I.
  - reflexivity.
Defined.
